(** * platform-registry-api: a shallow embedding of the registry proxy

    The Python sources modelled here live in [platform_registry_api/]:
    [api.py] (RepoURL, URLFactory, V2Handler), [helpers.py]
    (check_image_catalog_permission), [cache.py] (ExpiringCache),
    [basic.py] / [upstream.py] (the upstream credential providers),
    [aws_ecr.py] / [auth_strategies.py] (ECR response conversion) and
    [oauth.py] (OAuthToken).

    URLs are modelled at the level yarl exposes them: an optional origin
    (scheme, host and port), the decoded path and the decoded query as a
    multi-dict (an association list in order, duplicates allowed).
    Percent-encoding is taken to round-trip on decoded components. *)

From Stdlib Require Import ZArith Ascii PrimFloat Uint63 Sorted.
From stdpp Require Import base list strings gmap.

Local Open Scope string_scope.
(** stdpp makes [String.append] opaque to [simpl]; the proofs below
    compute with it. *)
#[local] Arguments String.append : simpl nomatch.

(* ------------------------------------------------------------------ *)
(** ** Python string primitives *)

Module Py.

(** [s.startswith(p)] *)
Fixpoint startswith (p s : string) : bool :=
  match p, s with
  | EmptyString, _ => true
  | String a p', String b s' => Ascii.eqb a b && startswith p' s'
  | String _ _, EmptyString => false
  end.

(** [s[len(p):]] when [s.startswith(p)] *)
Fixpoint strip_prefix (p s : string) : option string :=
  match p, s with
  | EmptyString, _ => Some s
  | String a p', String b s' => if Ascii.eqb a b then strip_prefix p' s' else None
  | String _ _, EmptyString => None
  end.

(** All ways of cutting [s] in two, the longest left part first: the order
    in which a greedy [.+] / [.*] of Python's [re] backtracks. *)
Fixpoint splits (s : string) : list (string * string) :=
  match s with
  | EmptyString => [("", "")]
  | String c s' => map (fun ab => (String c ab.1, ab.2)) (splits s') ++ [("", s)]
  end.

(** The first candidate accepted by [f]. *)
Fixpoint first_some {A B} (f : A -> option B) (l : list A) : option B :=
  match l with
  | [] => None
  | x :: l' => match f x with Some y => Some y | None => first_some f l' end
  end.

(** [c in s] for a character *)
Fixpoint has_char (c : ascii) (s : string) : bool :=
  match s with
  | EmptyString => false
  | String d s' => Ascii.eqb c d || has_char c s'
  end.

(** [sub in s] *)
Definition contains (sub s : string) : bool :=
  existsb (fun ab => startswith sub ab.2) (splits s).

(** [s.split(c)] for a one-character separator *)
Fixpoint split_on (c : ascii) (s : string) : list string :=
  match s with
  | EmptyString => [""]
  | String d s' =>
      let r := split_on c s' in
      if Ascii.eqb d c then "" :: r
      else match r with
           | x :: r' => String d x :: r'
           | [] => [String d ""]
           end
  end.

(** [sep.join(l)] *)
Fixpoint join_with (sep : string) (l : list string) : string :=
  match l with
  | [] => ""
  | [x] => x
  | x :: l' => x +:+ sep +:+ join_with sep l'
  end.

(** a multi-dict: [key in q] and [q[key]] (the first value) *)
Definition has_key (k : string) (q : list (string * string)) : bool :=
  existsb (fun kv => String.eqb kv.1 k) q.

Fixpoint get_first (k : string) (q : list (string * string)) : option string :=
  match q with
  | [] => None
  | (k', v) :: q' => if String.eqb k' k then Some v else get_first k q'
  end.

End Py.

Import Py.

(* ------------------------------------------------------------------ *)
(** ** yarl URLs *)

Record URL := mkURL {
  url_origin : option string;        (** scheme://host:port, [None] when relative *)
  url_path : string;
  url_query : list (string * string)
}.

Module Yarl.

(** the dot-segment removal loop of [urllib.parse.urljoin]; the
    accumulator is [resolved_path] reversed, so [pop()] is [tail] *)
Fixpoint resolve_rev (acc : list string) (segments : list string) : list string :=
  match segments with
  | [] => acc
  | seg :: rest =>
      if String.eqb seg ".." then resolve_rev (tail acc) rest
      else if String.eqb seg "." then resolve_rev acc rest
      else resolve_rev (seg :: acc) rest
  end.

Definition resolve (segments : list string) : list string :=
  let resolved := rev (resolve_rev [] segments) in
  let lastseg := List.last segments "" in
  if String.eqb lastseg "." || String.eqb lastseg ".." then resolved ++ [""]
  else resolved.

(** [segments[1:-1] = filter(None, segments[1:-1])] *)
Definition filter_middle (l : list string) : list string :=
  match l with
  | [] => []
  | x :: rest =>
      match rev rest with
      | [] => [x]
      | y :: mid_rev => x :: List.filter (fun s => negb (String.eqb s "")) (rev mid_rev) ++ [y]
      end
  end.

Definition merge_path (bpath path : string) : string :=
  let base_parts := split_on "/" bpath in
  let base_parts :=
    if String.eqb (List.last base_parts "") "" then base_parts
    else removelast base_parts in
  let segments :=
    if startswith "/" path then split_on "/" path
    else filter_middle (base_parts ++ split_on "/" path) in
  match join_with "/" (resolve segments) with
  | EmptyString => "/"
  | p => p
  end.

(** [URL.join(ref)] = [urljoin(str(base), str(ref))] (yarl 1.6) *)
Definition join (base ref : URL) : URL :=
  match url_origin ref with
  | Some _ => ref
  | None =>
      if String.eqb (url_path ref) "" then
        mkURL (url_origin base) (url_path base)
              (match url_query ref with [] => url_query base | q => q end)
      else mkURL (url_origin base) (merge_path (url_path base) (url_path ref)) (url_query ref)
  end.

Definition relative (u : URL) : URL := mkURL None (url_path u) (url_query u).

Definition is_absolute (u : URL) : bool :=
  match url_origin u with Some _ => true | None => false end.

(** [update_query([(k, v)])]: MultiDict.update replaces the first [k] in
    place, drops the other [k]s, appends when [k] is absent *)
Fixpoint update_query1 (k v : string) (q : list (string * string)) : list (string * string) :=
  match q with
  | [] => [(k, v)]
  | (k', v') :: q' =>
      if String.eqb k' k then (k, v) :: List.filter (fun kv => negb (String.eqb kv.1 k)) q'
      else (k', v') :: update_query1 k v q'
  end.

End Yarl.

(* ------------------------------------------------------------------ *)
(** ** RepoURL (api.py) *)

Module RepoURL.

Record t := mk {
  repo : string;
  url : URL;
  mounted_repo : string
}.

Definition nonempty (s : string) : bool := negb (String.eqb s "").

(** [_v2_path_re.fullmatch(path)]:
    [/v2/(?P<repo>.+)/(?P<path_suffix>(tags|manifests|blobs)/.* )] (space added).
    [.] does not match a newline; [repo] is greedy, so the longest
    candidate wins. Returns [(repo, path_suffix)]. *)
Definition v2_path_match (path : string) : option (string * string) :=
  if has_char "010"%char path then None else
  match strip_prefix "/v2/" path with
  | None => None
  | Some s =>
      first_some
        (fun ab =>
           if nonempty ab.1 then
             match strip_prefix "/" ab.2 with
             | Some sfx =>
                 if startswith "tags/" sfx || startswith "manifests/" sfx
                    || startswith "blobs/" sfx
                 then Some (ab.1, sfx) else None
             | None => None
             end
           else None)
        (splits s)
  end.

Definition upload_id_char (c : ascii) : bool :=
  let n := nat_of_ascii c in
  Nat.leb 48 n && Nat.leb n 57 || Nat.leb 65 n && Nat.leb n 90
  || Nat.leb 97 n && Nat.leb n 122
  || Ascii.eqb c "_" || Ascii.eqb c "=" || Ascii.eqb c "-".

Fixpoint all_chars (f : ascii -> bool) (s : string) : bool :=
  match s with
  | EmptyString => true
  | String c s' => f c && all_chars f s'
  end.

(** [_allowed_skip_perms_path_re[0].fullmatch(path)]:
    [^/(artifacts-uploads|artifacts-downloads)/namespaces/(?P<project>.+)/]
    [repositories/(?P<repo>.+)/(?P<path_suffix>(uploads|downloads))/]
    [(?P<upload_id>[A-Za-z0-9_=-]+)]; returns [(project, repo, path_suffix)]. *)
Definition artifacts_path_match (path : string) : option (string * string * string) :=
  if has_char "010"%char path then None else
  let body :=
    match strip_prefix "/artifacts-uploads/namespaces/" path with
    | Some s => Some s
    | None => strip_prefix "/artifacts-downloads/namespaces/" path
    end in
  match body with
  | None => None
  | Some s =>
      first_some
        (fun pb =>
           if nonempty pb.1 then
             match strip_prefix "/repositories/" pb.2 with
             | None => None
             | Some rest =>
                 first_some
                   (fun rb =>
                      if nonempty rb.1 then
                        let tail_match kw :=
                          match strip_prefix ("/" +:+ kw +:+ "/") rb.2 with
                          | Some id =>
                              if nonempty id && all_chars upload_id_char id
                              then Some (pb.1, rb.1, kw) else None
                          | None => None
                          end in
                        match tail_match "uploads" with
                        | Some m => Some m
                        | None => tail_match "downloads"
                        end
                      else None)
                   (splits rest)
             end
           else None)
        (splits s)
  end.

(** [_allowed_skip_perms_path_re[1].fullmatch(path)]:
    [^/v2/(?P<project>.+)/(?P<repo>.+)/pkg/(?P<path_suffix>blobs/.+)] *)
Definition pkg_path_match (path : string) : option (string * string * string) :=
  if has_char "010"%char path then None else
  match strip_prefix "/v2/" path with
  | None => None
  | Some s =>
      first_some
        (fun pb =>
           if nonempty pb.1 then
             match strip_prefix "/" pb.2 with
             | None => None
             | Some rest =>
                 first_some
                   (fun rb =>
                      if nonempty rb.1 then
                        match strip_prefix "/pkg/" rb.2 with
                        | Some sfx =>
                            match strip_prefix "blobs/" sfx with
                            | Some (String _ _) => Some (pb.1, rb.1, sfx)
                            | _ => None
                            end
                        | None => None
                        end
                      else None)
                   (splits rest)
             end
           else None)
        (splits s)
  end.

(** [_get_match_skip_perms_path_re] *)
Definition skip_perms_match (u : URL) : option (string * string * string) :=
  match artifacts_path_match (url_path u) with
  | Some m => Some m
  | None => pkg_path_match (url_path u)
  end.

(** [_parse]: [None] stands for the [ValueError] it raises. *)
Definition parse (u : URL) : option (string * string * URL) :=
  match skip_perms_match u with
  | Some (project, r, sfx) => Some (project +:+ "/" +:+ r, "", mkURL None sfx [])
  | None =>
      match v2_path_match (url_path u) with
      | None => None
      | Some (r, sfx) =>
          let path_suffix := mkURL None sfx (url_query u) in
          let mounted :=
            if contains "blobs/uploads" sfx && has_key "from" (url_query u)
            then default "" (get_first "from" (url_query u))
            else "" in
          Some (r, mounted, path_suffix)
      end
  end.

Definition from_url (u : URL) : option t :=
  match parse u with
  | Some (r, m, _) => Some (mk r u m)
  | None => None
  end.

Definition allow_skip_perms (r : t) : bool :=
  match skip_perms_match (url r) with Some _ => true | None => false end.

Definition with_project (r : t) (project : string) (upstream_repo : option string)
  : option t :=
  match parse (url r) with
  | None => None
  | Some (_, _, url_suffix) =>
      let '(new_mounted_repo, url_suffix) :=
        if nonempty (mounted_repo r) then
          let m := project +:+ "/" +:+ mounted_repo r in
          (m, mkURL (url_origin url_suffix) (url_path url_suffix)
                    (Yarl.update_query1 "from" m (url_query url_suffix)))
        else ("", url_suffix) in
      let up := match upstream_repo with
                | Some u => if nonempty u then u +:+ "/" else ""
                | None => "" end in
      let new_repo := project +:+ "/" +:+ up +:+ repo r in
      let rel_url := Yarl.join (mkURL None ("/v2/" +:+ new_repo +:+ "/") []) url_suffix in
      Some (mk new_repo (Yarl.join (url r) rel_url) new_mounted_repo)
  end.

Definition with_repo (r : t) (new_repo : string) : option t :=
  match parse (url r) with
  | None => None
  | Some (_, _, url_suffix) =>
      let rel_url := Yarl.join (mkURL None ("/v2/" +:+ new_repo +:+ "/") []) url_suffix in
      Some (mk new_repo (Yarl.join (url r) rel_url) (mounted_repo r))
  end.

Definition with_origin (r : t) (origin_url : URL) : t :=
  let u := if Yarl.is_absolute (url r) then Yarl.relative (url r) else url r in
  mk (repo r) (Yarl.join origin_url u) (mounted_repo r).

End RepoURL.

(* ------------------------------------------------------------------ *)
(** ** URLFactory (api.py) *)

Record URLFactory := mkURLFactory {
  registry_endpoint_url : URL;
  upstream_endpoint_url : URL;
  upstream_project : string;
  upstream_repo : option string
}.

Definition create_upstream_repo_url (f : URLFactory) (r : RepoURL.t) : option RepoURL.t :=
  if RepoURL.allow_skip_perms r then Some (RepoURL.with_origin r (upstream_endpoint_url f))
  else
    match RepoURL.with_project r (upstream_project f) (upstream_repo f) with
    | Some r' => Some (RepoURL.with_origin r' (upstream_endpoint_url f))
    | None => None
    end.

(** [None] stands for the [ValueError] raised when the repo lacks the
    project prefix (or when re-parsing the URL fails). *)
Definition create_registry_repo_url (f : URLFactory) (u : RepoURL.t) : option RepoURL.t :=
  let prefix := upstream_project f +:+ "/" in
  match strip_prefix prefix (RepoURL.repo u) with
  | None => None
  | Some r =>
      match RepoURL.with_repo u r with
      | Some u' => Some (RepoURL.with_origin u' (registry_endpoint_url f))
      | None => None
      end
  end.

(** Well-formed paths: after the leading [/], no [.] or [..] segment and
    no empty segment except possibly the last (no [//]); a clean name
    (project, repo) has only non-empty, non-dot segments and no newline. *)
Module PathWF.

Definition no_dot_seg (x : string) : bool :=
  negb (String.eqb x ".") && negb (String.eqb x "..").

Definition wf_segments (l : list string) : bool :=
  forallb no_dot_seg l && forallb RepoURL.nonempty (removelast l).

Definition wf_path (p : string) : bool :=
  match split_on "/" p with
  | EmptyString :: segs => wf_segments segs
  | _ => false
  end.

Definition clean (s : string) : bool :=
  forallb (fun x => RepoURL.nonempty x && no_dot_seg x) (split_on "/" s)
  && negb (has_char "010"%char s).

End PathWF.

(* ------------------------------------------------------------------ *)
(** ** Permission tree walk (helpers.py) *)

Module Helpers.

(** The actions of the auth service's permission tree. *)
Inductive Action := A_deny | A_list | A_read | A_write | A_manage.

(** [ClientAccessSubTreeView]: an action and the children by name (a dict,
    kept in insertion order; its keys are distinct). *)
#[warnings="-register-all"]
Inductive node := Node (action : Action) (children : list (string * node)).

Definition action (n : node) : Action := let 'Node a _ := n in a.
Definition children (n : node) : list (string * node) := let 'Node _ c := n in c.

Definition is_list (a : Action) : bool := match a with A_list => true | _ => false end.

(** [action not in {'deny', 'list'}] *)
Definition not_deny_list (a : Action) : bool :=
  match a with A_deny | A_list => false | _ => true end.

(** [node.children.get(part)]; a node object is always truthy *)
Fixpoint dict_get (k : string) (l : list (string * node)) : option node :=
  match l with
  | [] => None
  | (k', v) :: l' => if String.eqb k k' then Some v else dict_get k l'
  end.

(** [matching_leaves]: the childless children named [part:...] *)
Definition matching_leaves (part : string) (l : list (string * node)) : list node :=
  List.map snd (List.filter (fun kv => match children kv.2 with [] => true | _ => false end
                                       && startswith (part +:+ ":") kv.1) l).

(** The [for part in parts] loop from [node]; [break] ends it with the
    final [return node.action not in {'deny', 'list'}]. *)
Fixpoint walk (parts : list string) (nd : node) : bool :=
  match parts with
  | [] => not_deny_list (action nd)
  | part :: rest =>
      if is_list (action nd) then
        match dict_get part (children nd) with
        | Some child => walk rest child
        | None =>
            match matching_leaves part (children nd) with
            | [] => not_deny_list (action nd)
            | leaves => negb (existsb (fun leaf => negb (not_deny_list (action leaf))) leaves)
            end
        end
      else not_deny_list (action nd)
  end.

Definition check_image_catalog_permission (image_name_and_tag : string) (sub_tree : node) : bool :=
  walk (split_on "/" image_name_and_tag) sub_tree.

(** The walk as the spec describes it: stop with [true] at a node whose
    action is at least read, else descend; [false] for a missing child. *)
Definition at_least_read (a : Action) : bool :=
  match a with A_read | A_write | A_manage => true | _ => false end.

Fixpoint walk_as_specified (parts : list string) (nd : node) : bool :=
  if at_least_read (action nd) then true else
  match parts with
  | [] => false
  | part :: rest =>
      match dict_get part (children nd) with
      | Some child => walk_as_specified rest child
      | None => false
      end
  end.

(** The walk as the code does it, in the words of the amended property:
    descend only through [list] nodes; a node with any other action ends
    the walk; a missing child is looked up among the [part:tag] leaves. *)
Fixpoint walk_amended (parts : list string) (nd : node) : bool :=
  match parts, action nd with
  | [], a => at_least_read a
  | part :: rest, A_list =>
      match dict_get part (children nd) with
      | Some child => walk_amended rest child
      | None =>
          match matching_leaves part (children nd) with
          | [] => false
          | leaves => forallb (fun leaf => at_least_read (action leaf)) leaves
          end
      end
  | _ :: _, a => at_least_read a
  end.

End Helpers.

(* ------------------------------------------------------------------ *)
(** ** The generic repo handler [V2Handler.handle] (api.py) *)

Module Handler.

(** The exceptions raised on the way; [HTTPUnauthorized] carries its
    headers. *)
Inductive Exc :=
| HTTPUnauthorized (headers : list (string * string))
| HTTPForbidden
| TypeError
| ValueError
| AssertionError
| DataError
| KeyError
| IndexError
| UpstreamError.

(** A small error monad, with stdpp's [x ← m; k] notation. *)
Inductive result (A : Type) := Ok (a : A) | Err (e : Exc).
Arguments Ok {A} a.
Arguments Err {A} e.

#[global] Instance result_ret : MRet result := fun A a => Ok a.
#[global] Instance result_bind : MBind result :=
  fun A B f m => match m with Ok a => f a | Err e => Err e end.

Definition of_option {A} (e : Exc) (m : option A) : result A :=
  match m with Some a => Ok a | None => Err e end.

(** [neuro_auth_client.Permission] *)
Record Permission := mkPermission { uri : string; perm_action : string }.

(** The request's security context as aiohttp_security sees it: the
    identity of the caller, if any, and the auth service's answer to a
    permission check of a user. *)
Record Security := mkSecurity {
  authorized_userid : option string;
  permits : string -> list Permission -> bool
}.

(** aiohttp_security's [check_authorized] and [check_permission] (library
    code): no identity raises [HTTPUnauthorized] without headers, a denied
    permission raises [HTTPForbidden]. *)
Definition check_authorized (s : Security) : result string :=
  match authorized_userid s with
  | Some user => Ok user
  | None => Err (HTTPUnauthorized [])
  end.

Definition check_permission (s : Security) (permissions : list Permission) : result unit :=
  user ← check_authorized s;
  if permits s user permissions then Ok tt else Err HTTPForbidden.

(** The configured upstream: [BasicUpstream], [OAuthUpstream] or
    [AWSECRUpstream]. *)
Inductive Upstream := BasicUpstream | OAuthUpstream | AWSECRUpstream.

(** What the upstream clients do outside this code: the headers they
    return (the Basic ones ignore the repos) and ECR's [create_repository]. *)
Record Env := mkEnv {
  security : Security;
  upstream_headers : Upstream -> string -> string -> list (string * string);
  ecr_create_repo : string -> result unit
}.

(** [self._upstream.create_repo(repo)]: only [AWSECRUpstream] overrides
    the no-op of [Upstream]. *)
Definition create_repo (up : Upstream) (env : Env) (repo : string) : result unit :=
  match up with
  | AWSECRUpstream => ecr_create_repo env repo
  | _ => Ok tt
  end.

(** [self._upstream.get_headers_for_repo(...)] with positional [args]:
    [BasicUpstream.get_headers_for_repo(self, repo)] takes exactly one,
    the others [(self, repo, mounted_repo="")] one or two; a call with any
    other number raises [TypeError]. *)
Definition get_headers_for_repo (up : Upstream) (env : Env) (args : list string)
  : result (list (string * string)) :=
  match up, args with
  | BasicUpstream, [repo] => Ok (upstream_headers env up repo "")
  | BasicUpstream, _ => Err TypeError
  | _, [repo] => Ok (upstream_headers env up repo "")
  | _, [repo; mounted_repo] => Ok (upstream_headers env up repo mounted_repo)
  | _, _ => Err TypeError
  end.

Record UpstreamRegistryConfig := mkUpstreamRegistryConfig {
  endpoint_url : URL;
  project : string;
  repo : option string;
  max_catalog_entries : Z
}.

Record Config := mkConfig {
  cluster_name : string;
  server_name : string;
  upstream_registry : UpstreamRegistryConfig
}.

Record Request := mkRequest { method : string; request_url : URL }.

(** What [handle] hands to [_proxy_request]. *)
Record ProxyCall := mkProxyCall { proxy_url : URL; auth_headers : list (string * string) }.

Definition is_pull_request (req : Request) : bool :=
  String.eqb (method req) "HEAD" || String.eqb (method req) "GET".

Definition create_image_uri (cfg : Config) (r : string) : string :=
  "image://" +:+ cluster_name cfg +:+ "/" +:+ r.

(** The permissions [handle] asks for. *)
Definition permissions (cfg : Config) (req : Request) (r : RepoURL.t) : list Permission :=
  mkPermission (create_image_uri cfg (RepoURL.repo r))
    (if is_pull_request req then "read" else "write")
  :: (if RepoURL.nonempty (RepoURL.mounted_repo r)
      then [mkPermission (create_image_uri cfg (RepoURL.mounted_repo r)) "read"]
      else []).

(** [_raise_unauthorized]: [WWW-Authenticate: Basic realm="{server.name}"] *)
Definition quote : ascii := "034"%char.

Definition raise_unauthorized (cfg : Config) : Exc :=
  HTTPUnauthorized
    [("WWW-Authenticate", "Basic realm=" +:+ String quote (server_name cfg +:+ String quote ""))].

(** [_check_user_permissions]: only [HTTPUnauthorized] is caught. *)
Definition check_user_permissions (cfg : Config) (env : Env) (ps : list Permission)
  : result unit :=
  if RepoURL.nonempty (cluster_name cfg) then
    match check_permission (security env) ps with
    | Err (HTTPUnauthorized _) => Err (raise_unauthorized cfg)
    | r => r
    end
  else Err AssertionError.

Definition create_url_factory (cfg : Config) (req : Request) : URLFactory :=
  mkURLFactory (mkURL (url_origin (request_url req)) "" [])
    (endpoint_url (upstream_registry cfg)) (project (upstream_registry cfg))
    (repo (upstream_registry cfg)).

Definition handle (cfg : Config) (up : Upstream) (env : Env) (req : Request)
  : result ProxyCall :=
  registry_repo_url ← of_option ValueError (RepoURL.from_url (request_url req));
  _ ← (if RepoURL.allow_skip_perms registry_repo_url then Ok tt
       else check_user_permissions cfg env (permissions cfg req registry_repo_url));
  let url_factory := create_url_factory cfg req in
  upstream_repo_url ← of_option ValueError
                        (create_upstream_repo_url url_factory registry_repo_url);
  _ ← (if is_pull_request req then Ok tt
       else create_repo up env (RepoURL.repo upstream_repo_url));
  auth_headers ← get_headers_for_repo up env
                   [RepoURL.repo upstream_repo_url; RepoURL.mounted_repo upstream_repo_url];
  Ok (mkProxyCall (RepoURL.url upstream_repo_url) auth_headers).

End Handler.

(* ------------------------------------------------------------------ *)
(** ** The catalog page (api.py) *)

Module Catalog.
Import Handler.

Record CatalogPage := mkCatalogPage { number : Z; last_token : string }.

(** Python's [int(s)] on an ASCII string: surrounding whitespace, an
    optional sign, decimal digits with single [_] between digits. *)
Definition is_py_space (c : ascii) : bool :=
  let n := nat_of_ascii c in
  (Nat.leb 9 n && Nat.leb n 13) || (Nat.leb 28 n && Nat.leb n 32).

Fixpoint lstrip (s : string) : string :=
  match s with
  | String c s' => if is_py_space c then lstrip s' else s
  | EmptyString => EmptyString
  end.

Definition rev_str (s : string) : string :=
  String.string_of_list_ascii (List.rev (String.list_ascii_of_string s)).

Definition py_strip (s : string) : string := rev_str (lstrip (rev_str (lstrip s))).

Definition digit_value (c : ascii) : option Z :=
  let n := nat_of_ascii c in
  if Nat.leb 48 n && Nat.leb n 57 then Some (Z.of_nat (n - 48)) else None.

Fixpoint py_digits (s : string) (acc : Z) (after_digit : bool) : option Z :=
  match s with
  | EmptyString => if after_digit then Some acc else None
  | String c s' =>
      match digit_value c with
      | Some d => py_digits s' (acc * 10 + d) true
      | None =>
          if Ascii.eqb c "_" && after_digit then py_digits s' acc false else None
      end
  end.

Definition py_int (s : string) : option Z :=
  match py_strip s with
  | String c r =>
      if Ascii.eqb c "-" then option_map Z.opp (py_digits r 0 false)
      else if Ascii.eqb c "+" then py_digits r 0 false
      else py_digits (String c r) 0 false
  | EmptyString => None
  end.

(** Python's [str(z)] *)
Fixpoint pos_digits (fuel : nat) (z : Z) (acc : string) : string :=
  match fuel with
  | O => acc
  | S fuel' =>
      let acc' := String (ascii_of_nat (48 + Z.to_nat (z mod 10))) acc in
      if Z.ltb z 10 then acc' else pos_digits fuel' (z / 10) acc'
  end.

Definition py_str_int (z : Z) : string :=
  if Z.ltb z 0 then "-" +:+ pos_digits (S (Z.to_nat (Z.log2 (- z)))) (- z) ""
  else pos_digits (S (Z.to_nat (Z.log2 z))) z "".

(** [CATALOG_PAGE_VALIDATOR.check(request.query)]: [t.Dict] with
    [Key("n", default=100): t.Int(gt=0)] and
    [Key("last", optional=True): t.String()], [.allow_extra("*")], then
    [CatalogPage.create]. A multidict lookup reads the first value of a
    key; [t.Int] accepts what [int()] converts and returns the value
    unchanged, [t.String] refuses the empty string; [None] stands for the
    [DataError] raised. *)
Definition CATALOG_PAGE_VALIDATOR (query : list (string * string)) : option CatalogPage :=
  let n_checked :=
    match get_first "n" query with
    | None => Some 100%Z
    | Some v =>
        match py_int v with
        | Some z => if Z.ltb 0 z then Some z else None
        | None => None
        end
    end in
  let last_checked :=
    match get_first "last" query with
    | None => Some ""
    | Some v => if RepoURL.nonempty v then Some v else None
    end in
  match n_checked, last_checked with
  | Some n, Some l => Some (mkCatalogPage n l)
  | _, _ => None
  end.

Definition prepare_catalog_request_params (page : CatalogPage) : list (string * string) :=
  ("n", py_str_int (number page))
  :: (if RepoURL.nonempty (last_token page) then [("last", last_token page)] else []).

Definition create_upstream_catalog_url (f : URLFactory) (query : list (string * string)) : URL :=
  mkURL (url_origin (upstream_endpoint_url f)) "/v2/_catalog" query.

Definition create_registry_catalog_url (f : URLFactory) (query : list (string * string)) : URL :=
  mkURL (url_origin (registry_endpoint_url f)) "/v2/_catalog" query.

(** [bool(url)] for a yarl URL *)
Definition url_truthy (u : URL) : bool :=
  match url_origin u with
  | Some _ => true
  | None => RepoURL.nonempty (url_path u) || negb (bool_decide (url_query u = []))
  end.

Definition opt_url_truthy (u : option URL) : bool :=
  match u with Some u => url_truthy u | None => false end.

(** [url.query.get("last", "")] *)
Definition query_last (u : URL) : string := default "" (get_first "last" (url_query u)).

(** [filter_images_1_indexed]: the names under [project/[upstream_repo/]],
    stripped of that prefix and allowed by the tree, with their 1-based
    index in the upstream list. *)
Fixpoint filter_from (i : nat) (prefix : string) (tree : Helpers.node) (images : list string)
  : list (nat * string) :=
  match images with
  | [] => []
  | image :: rest =>
      match strip_prefix prefix image with
      | Some image' =>
          if Helpers.check_image_catalog_permission image' tree
          then (i, image') :: filter_from (S i) prefix tree rest
          else filter_from (S i) prefix tree rest
      | None => filter_from (S i) prefix tree rest
      end
  end.

Definition catalog_prefix (project_name : string) (upstream_repo : option string) : string :=
  let upstream_repo_prefix :=
    match upstream_repo with
    | Some u => if RepoURL.nonempty u then u +:+ "/" else ""
    | None => ""
    end in
  project_name +:+ "/" +:+ upstream_repo_prefix.

Definition filter_images_1_indexed (images_names : list string) (tree : Helpers.node)
    (project_name : string) (upstream_repo : option string) : list (nat * string) :=
  filter_from 1 (catalog_prefix project_name upstream_repo) tree images_names.

(** The local variables of the paging loop. *)
Record LoopState := mkLoopState {
  filtered : list string;
  index : nat;
  more_images : bool;
  last_token_is_correct : bool;
  loop_last_token : string
}.

(** The [for index, image in ...] loop, up to its [break]. *)
Fixpoint append_images (n : Z) (len_images : nat) (paging_url : option URL)
    (items : list (nat * string)) (st : LoopState) : LoopState :=
  match items with
  | [] => st
  | (i, image) :: rest =>
      let fl := (filtered st ++ [image])%list in
      if Z.eqb (Z.of_nat (length fl)) n then
        let more := more_images st || opt_url_truthy paging_url || negb (Nat.eqb i len_images) in
        if Nat.eqb i len_images then
          mkLoopState fl i more true
            (match paging_url with
             | Some u => if url_truthy u then query_last u else ""
             | None => ""
             end)
        else mkLoopState fl i more (last_token_is_correct st) (loop_last_token st)
      else append_images n len_images paging_url rest
             (mkLoopState fl i (more_images st) (last_token_is_correct st) (loop_last_token st))
  end.

(** The upstream as seen by [_get_next_catalog_items]: the answer to the
    [k]-th call, for the URL it is given: the repository names and the
    [next] link, or [None] for an error raised. *)
Definition Fetch := nat -> URL -> option (list string * option URL).

(** The [while paging_url and len(filtered) < page.number] loop; [k]
    counts the upstream calls so far, [fuel] bounds the iterations
    ([None]: out of fuel). *)
Fixpoint catalog_loop (fuel : nat) (fetch : Fetch) (n max_entries : Z) (tree : Helpers.node)
    (prefix : string) (k : nat) (paging_url : option URL) (st : LoopState)
  : option (option (nat * LoopState)) :=
  match fuel with
  | O => None
  | S fuel' =>
      match paging_url with
      | Some pu =>
          if url_truthy pu && Z.ltb (Z.of_nat (length (filtered st))) n then
            let number := Z.max (n - Z.of_nat (length (filtered st))) max_entries in
            let pu := mkURL (url_origin pu) (url_path pu)
                        (Yarl.update_query1 "number" (py_str_int number) (url_query pu)) in
            let st := mkLoopState (filtered st) (index st) (more_images st)
                        (last_token_is_correct st) (query_last pu) in
            match fetch k pu with
            | None => Some None
            | Some (images_list, next) =>
                match images_list with
                | [] => Some (Some (S k, st))
                | _ =>
                    catalog_loop fuel' fetch n max_entries tree prefix (S k) next
                      (append_images n (length images_list) next
                         (filter_from 1 prefix tree images_list) st)
                end
            end
          else Some (Some (k, st))
      | None => Some (Some (k, st))
      end
  end.

(** What the catalog handler depends on besides the request: the caller's
    identity, the auth service's permission tree of a user under a URI,
    and the upstream. The auth headers and timeouts of the upstream calls
    do not change the answers and are left out. *)
Record CatalogEnv := mkCatalogEnv {
  cat_security : Security;
  get_permissions_tree : string -> string -> Helpers.node;
  get_next_catalog_items : Fetch
}.

(** The response: the [repositories] of the body and the target of the
    [Link: <...>; rel="next"] header, if any. *)
Record CatalogResponse := mkCatalogResponse {
  repositories : list string;
  link_next : option URL
}.

(** [_get_user_from_request] *)
Definition get_user_from_request (cfg : Config) (s : Security) : result string :=
  match check_authorized s with
  | Err (HTTPUnauthorized _) => Err (raise_unauthorized cfg)
  | r => r
  end.

(** [handle_catalog]; the outer [None] is an exhausted [fuel]. *)
Definition handle_catalog (fuel : nat) (cfg : Config) (env : CatalogEnv) (req : Request)
  : option (result CatalogResponse) :=
  match CATALOG_PAGE_VALIDATOR (url_query (request_url req)) with
  | None => Some (Err DataError)
  | Some page =>
      match get_user_from_request cfg (cat_security env) with
      | Err e => Some (Err e)
      | Ok user =>
          let tree := get_permissions_tree env user ("image://" +:+ cluster_name cfg) in
          let url_factory := create_url_factory cfg req in
          let prefix := catalog_prefix (upstream_project url_factory) (upstream_repo url_factory) in
          let paging_url := create_upstream_catalog_url url_factory
                              (prepare_catalog_request_params page) in
          let fetch := get_next_catalog_items env in
          match catalog_loop fuel fetch (number page)
                  (max_catalog_entries (upstream_registry cfg)) tree prefix 0
                  (Some paging_url) (mkLoopState [] 0 false false "") with
          | None => None
          | Some None => Some (Err UpstreamError)
          | Some (Some (k, st)) =>
              let last :=
                if more_images st && negb (last_token_is_correct st) then
                  let page_exact_last := mkCatalogPage (Z.of_nat (index st)) (loop_last_token st) in
                  let url_exact_last := create_upstream_catalog_url url_factory
                                          (prepare_catalog_request_params page_exact_last) in
                  match fetch k url_exact_last with
                  | None => None
                  | Some (_, url_last_token) =>
                      Some (match url_last_token with
                            | Some u => if url_truthy u then query_last u else ""
                            | None => ""
                            end)
                  end
                else Some (loop_last_token st) in
              match last with
              | None => Some (Err UpstreamError)
              | Some last_token =>
                  let link :=
                    if more_images st && RepoURL.nonempty last_token then
                      Some (create_registry_catalog_url url_factory
                              [("n", py_str_int (max_catalog_entries (upstream_registry cfg)));
                               ("last", last_token)])
                    else None in
                  Some (Ok (mkCatalogResponse (filtered st) link))
              end
          end
      end
  end.

(** The query keys the validator reads. *)
Definition page_key (kv : string * string) : bool :=
  String.eqb kv.1 "n" || String.eqb kv.1 "last".

(** The invariant of the paging loop: at most [n] names, each [good]. *)
Definition loop_inv (good : string -> Prop) (n : Z) (st : LoopState) : Prop :=
  (Z.of_nat (length (filtered st)) <= n)%Z /\ forall image, In image (filtered st) -> good image.

(** A name some upstream answer listed under [prefix], stripped of it, and
    allowed by the tree. *)
Definition listed_and_allowed (fetch : Fetch) (prefix : string) (tree : Helpers.node)
    (image : string) : Prop :=
  (exists k u images next, fetch k u = Some (images, next) /\ In (prefix +:+ image) images)
  /\ Helpers.check_image_catalog_permission image tree = true.

End Catalog.

(* ------------------------------------------------------------------ *)
(** ** ECR responses (aws_ecr.py, auth_strategies.py) *)

Module ECR.
Import Handler.

(** The JSON values botocore returns; an object keeps its keys in
    insertion order. *)
#[warnings="-register-all"]
Inductive json :=
| JNull
| JBool (b : bool)
| JInt (z : Z)
| JStr (s : string)
| JList (l : list json)
| JObj (fields : list (string * json)).

(** [d.get(k)] *)
Fixpoint dict_get (k : string) (d : list (string * json)) : option json :=
  match d with
  | [] => None
  | (k', v) :: d' => if String.eqb k' k then Some v else dict_get k d'
  end.

(** [d.pop(k, None)]: the value, if any, and the dict without it *)
Fixpoint dict_pop (k : string) (d : list (string * json)) : option json * list (string * json) :=
  match d with
  | [] => (None, [])
  | (k', v) :: d' =>
      if String.eqb k' k then (Some v, d')
      else let '(r, d'') := dict_pop k d' in (r, (k', v) :: d'')
  end.

(** [o[k]] for a string key *)
Definition getitem (o : json) (k : string) : result json :=
  match o with
  | JObj d => of_option KeyError (dict_get k d)
  | _ => Err TypeError
  end.

(** [len(o)] *)
Definition py_len (o : json) : result nat :=
  match o with
  | JList l => Ok (length l)
  | JObj d => Ok (length d)
  | JStr s => Ok (String.length s)
  | _ => Err TypeError
  end.

(** [o[0]] *)
Definition index0 (o : json) : result json :=
  match o with
  | JList (x :: _) => Ok x
  | JList [] => Err IndexError
  | JObj _ => Err KeyError
  | JStr (String c _) => Ok (JStr (String c EmptyString))
  | JStr EmptyString => Err IndexError
  | _ => Err TypeError
  end.

(** [o == z] for an int [z], [o == s] for a string [s] *)
Definition json_is_int (z : Z) (o : json) : bool :=
  match o with JInt z' => Z.eqb z' z | _ => false end.

Definition json_is_str (s : string) (o : json) : bool :=
  match o with JStr s' => String.eqb s' s | _ => false end.

Definition error_body (code : json) (message : json) (detail : json) : list (string * json) :=
  [("errors", JList [JObj [("code", code); ("message", message); ("detail", detail)]])].

(** [convert_upstream_response], the same code in [AWSECRUpstream] and
    [AWSECRAuthStrategy]: [None] for a missing [ResponseMetadata] is a
    [KeyError], a status other than 200 fails the [assert]. *)
Definition convert_upstream_response (upstream_response : list (string * json))
  : result (Z * list (string * json)) :=
  let '(rm, d1) := dict_pop "ResponseMetadata" upstream_response in
  response_metadata ← of_option KeyError rm;
  let '(fl, content) := dict_pop "failures" d1 in
  let failures := default (JList []) fl in
  http_status ← getitem response_metadata "HTTPStatusCode";
  if negb (json_is_int 200 http_status) then Err AssertionError else
  len_failures ← py_len failures;
  sc ← (if Nat.eqb len_failures 0 then Ok (202%Z, content) else
        failure ← index0 failures;
        code ← getitem failure "failureCode";
        if json_is_str "ImageNotFound" code then
          reason ← getitem failure "failureReason";
          Ok (404%Z, error_body (JStr "NAME_INVALID") (JStr "Invalid image name") reason)
        else
          code' ← getitem failure "failureCode";
          if json_is_str "RepositoryNotFound" code' then
            reason ← getitem failure "failureReason";
            Ok (404%Z, error_body (JStr "NAME_UNKNOWN")
                         (JStr "Repository name not known to registry") reason)
          else
            message ← getitem failure "failureCode";
            reason ← getitem failure "failureReason";
            Ok (500%Z, error_body (JInt 0) message reason));
  let '(status, content) := sc in
  let content := (dict_pop "failures" content).2 in
  let content := (dict_pop "ResponseMetadata" content).2 in
  let content := (dict_pop "repository" content).2 in
  Ok (status, content).

(** [kv] unless its key is [k] *)
Definition drop_key (k : string) (kv : string * json) : bool := negb (String.eqb kv.1 k).

(** A payload without the keys the conversion drops. *)
Definition without_keys (ks : list string) (d : list (string * json)) : list (string * json) :=
  List.filter (fun kv => negb (existsb (String.eqb kv.1) ks)) d.

End ECR.

(** ** [oauth.py]: [OAuthToken] *)

Module OAuth.

(** The keys of a token-endpoint payload that [OAuthToken] reads. A number
    is held as the float Python turns it into when [_parse_expires_at]
    multiplies it by the float [expiration_ratio]. *)
Record Payload := mkPayload {
  token : option string;
  p_access_token : option string;
  p_expires_in : option float;
  issued_at : option string;
}.

Record OAuthToken := mkOAuthToken { access_token : string; expires_at : float }.

(** Truthiness of an optional string: present and non-empty. *)
Definition truthy (s : option string) : bool :=
  match s with Some s' => negb (String.eqb s' "") | None => false end.

(** [payload.get("token") or payload.get("access_token")]; [None] is the
    [ValueError("no access token")]. *)
Definition _parse_access_token (payload : Payload) : option string :=
  let access_token := if truthy (token payload) then token payload
                      else p_access_token payload in
  if truthy access_token then access_token else None.

(** [_parse_expires_at]: [now] is the value of [time_factory()] (or
    [time.time()]) and [timestamp s] that of
    [iso8601.parse_date(s).timestamp()]. *)
Definition _parse_expires_at (payload : Payload) (default_expires_in : float)
    (expiration_ratio : float) (now : float) (timestamp : string -> float) : float :=
  let expires_in := match p_expires_in payload with
                    | Some e => e | None => default_expires_in end in
  let issued_at := match issued_at payload with
                   | Some s => if truthy (Some s) then timestamp s else now
                   | None => now end in
  (issued_at + expires_in * expiration_ratio)%float.

(** [create_from_payload] with its defaults [default_expires_in=60] and
    [expiration_ratio=0.75], as both call sites use it. *)
Definition create_from_payload (payload : Payload) (now : float)
    (timestamp : string -> float) : option OAuthToken :=
  match _parse_access_token payload with
  | Some t => Some (mkOAuthToken t (_parse_expires_at payload 60%float 0.75%float now timestamp))
  | None => None
  end.

End OAuth.

(** ** [cache.py]: [ExpiringCache] *)

Module Cache.

Section ExpiringCache.
Context {T : Type}.

(** [self._cache: Dict[Optional[str], Tuple[T, float]]] *)
Definition ExpiringCache := gmap (option string) (T * float).

(** [get(key)], with [now] the value [self._time_factory()] returns. *)
Definition get (cache : ExpiringCache) (key : option string) (now : float) : option T :=
  match cache !! key with
  | Some (value, expires_at) => if PrimFloat.ltb now expires_at then Some value else None
  | None => None
  end.

(** [put(key, value, expires_at)] *)
Definition put (cache : ExpiringCache) (key : option string) (value : T) (expires_at : float)
  : ExpiringCache :=
  <[key := (value, expires_at)]> cache.

(** A call on the cache: [get] leaves it as it is. *)
Inductive Op :=
| Get (key : option string) (now : float)
| Put (key : option string) (value : T) (expires_at : float).

Definition step (cache : ExpiringCache) (op : Op) : ExpiringCache :=
  match op with
  | Get _ _ => cache
  | Put k v e => put cache k v e
  end.

Definition run (cache : ExpiringCache) (ops : list Op) : ExpiringCache :=
  fold_left step ops cache.

(** [op] is not a [put] for [key]. *)
Definition no_put_on (key : option string) (op : Op) : bool :=
  match op with
  | Get _ _ => true
  | Put k _ _ => negb (bool_decide (k = key))
  end.

End ExpiringCache.

Arguments ExpiringCache : clear implicits.

End Cache.

(* ------------------------------------------------------------------ *)
(** ** [config.py]: [EnvironConfigFactory.create_upstream_registry] *)

Module EnvConfig.
Import Handler.

Inductive UpstreamType := BASIC | OAUTH | AWS_ECR.

(** [UpstreamType(value)]: lookup by value, [ValueError] otherwise. *)
Definition UpstreamType_of_value (v : string) : result UpstreamType :=
  if String.eqb v "basic" then Ok BASIC
  else if String.eqb v "oauth" then Ok OAUTH
  else if String.eqb v "aws_ecr" then Ok AWS_ECR
  else Err ValueError.

Definition UpstreamType_eqb (a b : UpstreamType) : bool :=
  match a, b with
  | BASIC, BASIC | OAUTH, OAUTH | AWS_ECR, AWS_ECR => true
  | _, _ => false
  end.

(** The dataclass with its defaults; a [URL] is kept as the string it is
    built from ([URL()] is the empty string). *)
Record UpstreamRegistryConfig := mkUpstreamRegistryConfig {
  endpoint_url : string;
  project : string;
  repo : string;
  type : UpstreamType;
  basic_username : string;
  basic_password : string;
  token_endpoint_url : string;
  token_service : string;
  token_endpoint_username : string;
  token_endpoint_password : string;
  token_registry_catalog_scope : string;
  token_repository_scope_actions : string;
  sock_connect_timeout_s : option float;
  sock_read_timeout_s : option float;
  max_catalog_entries : Z
}.

(** [self._environ = environ or os.environ]: an empty dict is falsy. *)
Definition factory_environ (environ : option (gmap string string))
    (os_environ : gmap string string) : gmap string string :=
  match environ with
  | Some e => if bool_decide (e = ∅) then os_environ else e
  | None => os_environ
  end.

(** [self._environ[name]] *)
Definition env_item (env : gmap string string) (name : string) : result string :=
  of_option KeyError (env !! name).

(** [UpstreamRegistryConfig( **upstream)]: the keyword arguments
    [create_upstream_registry] collects, over the dataclass defaults; the
    optional ones are [None] when not collected. *)
Definition make_config (endpoint_url project : string) (max_catalog_entries : Z)
    (type : UpstreamType) (repo : option string)
    (token : option (string * string * string * string))
    (catalog_scope repo_scope_actions basic_username basic_password : option string)
  : UpstreamRegistryConfig :=
  let '(tu, ts, tn, tp) := default ("", "", "", "") token in
  mkUpstreamRegistryConfig endpoint_url project (default "" repo) type
    (default "" basic_username) (default "" basic_password) tu ts tn tp
    (default "registry:catalog:*" catalog_scope) (default "*" repo_scope_actions)
    (Some 30%float) (Some 30%float) max_catalog_entries.

Definition create_upstream_registry (env : gmap string string) : result UpstreamRegistryConfig :=
  endpoint_url ← env_item env "NP_REGISTRY_UPSTREAM_URL";
  project ← env_item env "NP_REGISTRY_UPSTREAM_PROJECT";
  max_catalog_entries ←
    (match env !! "NP_REGISTRY_UPSTREAM_MAX_CATALOG_ENTRIES" with
     | Some v => of_option ValueError (Catalog.py_int v)
     | None => Ok 1000%Z
     end);
  upstream_type ← UpstreamType_of_value
    (default "oauth" (env !! "NP_REGISTRY_UPSTREAM_TYPE"));
  oauth ← (if UpstreamType_eqb upstream_type OAUTH then
             token_endpoint_url ← env_item env "NP_REGISTRY_UPSTREAM_TOKEN_URL";
             token_service ← env_item env "NP_REGISTRY_UPSTREAM_TOKEN_SERVICE";
             token_endpoint_username ← env_item env "NP_REGISTRY_UPSTREAM_TOKEN_USERNAME";
             token_endpoint_password ← env_item env "NP_REGISTRY_UPSTREAM_TOKEN_PASSWORD";
             Ok (Some (token_endpoint_url, token_service,
                       token_endpoint_username, token_endpoint_password))
           else Ok None);
  let is_oauth := UpstreamType_eqb upstream_type OAUTH in
  let is_basic := UpstreamType_eqb upstream_type BASIC in
  let when {A} (b : bool) (x : option A) := if b then x else None in
  Ok (make_config endpoint_url project max_catalog_entries upstream_type
        (when is_oauth (env !! "NP_REGISTRY_UPSTREAM_REPO"))
        oauth
        (when is_oauth (env !! "NP_REGISTRY_UPSTREAM_TOKEN_REGISTRY_SCOPE"))
        (when is_oauth (env !! "NP_REGISTRY_UPSTREAM_TOKEN_REPO_SCOPE_ACTIONS"))
        (when is_basic (env !! "NP_REGISTRY_UPSTREAM_BASIC_USERNAME"))
        (when is_basic (env !! "NP_REGISTRY_UPSTREAM_BASIC_PASSWORD"))).

End EnvConfig.

(* ------------------------------------------------------------------ *)
(** ** [api.py]: [V2Handler._fixup_repo_name] *)

Module Fixup.
Import ECR.

(** [k in d] for a JSON object *)
Definition dict_has (k : string) (d : list (string * json)) : bool :=
  existsb (fun kv => String.eqb kv.1 k) d.

(** [d[k] = v]: the value of [k] replaced in place, or appended. *)
Fixpoint dict_set (k : string) (v : json) (d : list (string * json)) : list (string * json) :=
  match d with
  | [] => [(k, v)]
  | (k', v') :: d' => if String.eqb k' k then (k, v) :: d' else (k', v') :: dict_set k v d'
  end.

(** [if isinstance(detail, dict) and "name" in detail: detail["name"] = repo] *)
Definition fix_detail (repo : string) (detail : json) : json :=
  match detail with
  | JObj f => if dict_has "name" f then JObj (dict_set "name" (JStr repo) f) else detail
  | _ => detail
  end.

(** [if isinstance(error, dict) and "detail" in error: ...]; the detail
    dict is changed in place, which is [error["detail"]] set to it. *)
Definition fix_error (repo : string) (error : json) : json :=
  match error with
  | JObj f =>
      if dict_has "detail" f then
        match dict_get "detail" f with
        | Some detail => JObj (dict_set "detail" (fix_detail repo detail) f)
        | None => error
        end
      else error
  | _ => error
  end.

(** [_fixup_repo_name(data, repo)], returning the changed [data]. *)
Definition _fixup_repo_name (data : json) (repo : string) : json :=
  match data with
  | JObj f =>
      let f1 :=
        if dict_has "errors" f then
          match dict_get "errors" f with
          | Some (JList errors) => dict_set "errors" (JList (map (fix_error repo) errors)) f
          | _ => f
          end
        else f in
      JObj (if dict_has "name" f1 then dict_set "name" (JStr repo) f1 else f1)
  | _ => data
  end.

End Fixup.

(* ------------------------------------------------------------------ *)
(** ** The upstream auth headers: [OAuthUpstream._get_headers],
    [AWSECRAuthToken] and [AWSECRUpstream._get_headers] *)

Module AuthHeaders.
Import Handler.

Definition Headers := list (string * string).

(** [OAuthUpstream._get_headers(scopes)]: [now] is the clock value the
    cache reads, [get_token] the token endpoint ([OAuthClient.get_token]),
    [bearer] neuro_auth_client's [BearerAuth(...).encode()]. Returns the
    headers and the cache after the call. *)
Definition oauth_get_headers (bearer : string -> string)
    (get_token : list string -> result OAuth.OAuthToken)
    (cache : Cache.ExpiringCache Headers) (now : float) (scopes : list string)
  : result (Headers * Cache.ExpiringCache Headers) :=
  let key := Some (join_with " " scopes) in
  match Cache.get cache key now with
  | Some headers => Ok (headers, cache)
  | None =>
      token ← get_token scopes;
      let headers := [("Authorization", bearer (OAuth.access_token token))] in
      Ok (headers, Cache.put cache key headers (OAuth.expires_at token))
  end.

(** The [authorizationData] entries of ECR's [get_authorization_token]
    answer, as far as [create_from_payload] reads them; [expiresAt] is its
    [.timestamp()]. *)
Record AuthorizationData := mkAuthorizationData {
  authorizationToken : option string;
  expiresAt : option float
}.

Record AWSECRAuthToken := mkAWSECRAuthToken { token : string; expires_at : float }.

(** [AWSECRAuthToken.create_from_payload(payload, time_factory=...)] with
    [expiration_ratio=0.75]; [now] is [time_factory()]. Every lookup
    failure is re-raised as [ValueError], as is an expiry not after
    [issued_at]. *)
Definition create_from_payload (authorizationData : option (list AuthorizationData))
    (now : float) : result AWSECRAuthToken :=
  match authorizationData with
  | Some (token_payload :: _) =>
      match authorizationToken token_payload, expiresAt token_payload with
      | Some token, Some expires =>
          let issued_at := now in
          let expires_in := (expires - issued_at)%float in
          let expires_at := (issued_at + expires_in * 0.75)%float in
          if PrimFloat.leb expires_at issued_at then Err ValueError
          else Ok (mkAWSECRAuthToken token expires_at)
      | _, _ => Err ValueError
      end
  | _ => Err ValueError
  end.

(** [AWSECRUpstream._get_headers()]: the cache reads the clock at [now],
    [create_from_payload] at [now_token]; [get_authorization_token] is the
    ECR call. *)
Definition ecr_get_headers
    (get_authorization_token : result (option (list AuthorizationData)))
    (cache : Cache.ExpiringCache Headers) (now now_token : float)
  : result (Headers * Cache.ExpiringCache Headers) :=
  let scope := Some "*" in
  match Cache.get cache scope now with
  | Some headers => Ok (headers, cache)
  | None =>
      payload ← get_authorization_token;
      tok ← create_from_payload payload now_token;
      let headers := [("Authorization", "Basic " +:+ token tok)] in
      Ok (headers, Cache.put cache scope headers (expires_at tok))
  end.

End AuthHeaders.

(* ------------------------------------------------------------------ *)
(** ** [api.py]: [V2Handler._handle_aws_ecr_tags_list] *)

Module ECRTags.
Import Handler ECR.

(** What a boto call ends in: its answer, a [botocore] [ClientError] with
    its error code and [str(e)], or another exception. *)
Inductive CallResult (A : Type) :=
| CallOk (a : A)
| ClientError (code : string) (message : string)
| OtherError (e : Exc).
Arguments CallOk {A} a.
Arguments ClientError {A} code message.
Arguments OtherError {A} e.

(** The calls made on the ECR client, in order. *)
Inductive EcrCall :=
| ListImages (args : list (string * json))
| DeleteRepository (repositoryName : string).

(** The JSON response: its status, body and [Link: <...>; rel="next"]
    target; the other headers are not modelled. *)
Record TagsResponse := mkTagsResponse {
  status : Z;
  body : list (string * json);
  link_next : option URL
}.

(** [_, _, user, *repository_components, _, _ = parts]; [None] is the
    [ValueError] of a short list. *)
Definition unpack_path (parts : list string) : option (string * list string) :=
  match parts with
  | _ :: _ :: user :: rest =>
      if Nat.leb 2 (length rest) then Some (user, take (length rest - 2) rest) else None
  | _ => None
  end.

(** [for x in o], for the JSON values: a list's items, an object's keys,
    a string's characters. *)
Definition py_iter (o : json) : result (list json) :=
  match o with
  | JList l => Ok l
  | JObj d => Ok (map (fun kv => JStr kv.1) d)
  | JStr s => Ok (map (fun c => JStr (String c EmptyString)) (String.list_ascii_of_string s))
  | _ => Err TypeError
  end.

Fixpoint map_result {A B} (f : A -> result B) (l : list A) : result (list B) :=
  match l with
  | [] => Ok []
  | x :: l' => y ← f x; ys ← map_result f l'; Ok (y :: ys)
  end.

(** yarl's [with_query(next=v)] value: a [str], or an [int] as [str(v)]. *)
Definition query_var (v : json) : result string :=
  match v with
  | JStr s => Ok s
  | JInt z => Ok (Catalog.py_str_int z)
  | _ => Err TypeError
  end.

(** The two [except] clauses. *)
Definition on_client_error (repo code message : string) : TagsResponse :=
  if String.eqb code "RepositoryNotFoundException" then
    mkTagsResponse 404
      [("errors", JList [JObj [("code", JStr "NAME_UNKNOWN");
                               ("message", JStr ("Repository " +:+ repo +:+ " not found"));
                               ("detail", JStr "")]])] None
  else
    mkTagsResponse 400
      [("errors", JList [JObj [("code", JStr "UNSUPPORTED");
                               ("message", JStr "AWS list_images failed");
                               ("detail", JStr message)]])] None.

(** The [try] body after [list_images] and the repository clean-up. *)
Definition tags_response (prepare_response_headers : json -> result unit)
    (registry_repo_url : RepoURL.t) (client_response : list (string * json))
  : result TagsResponse :=
  response_metadata ← getitem (JObj client_response) "ResponseMetadata";
  http_headers ← getitem response_metadata "HTTPHeaders";
  _ ← prepare_response_headers http_headers;
  sd ← convert_upstream_response client_response;
  let '(status, data) := sd in
  images ← py_iter (default (JList []) (dict_get "imageIds" data));
  tags ← map_result (fun image => getitem image "imageTag") images;
  link ← (match dict_get "nextToken" client_response with
          | Some next_token =>
              t ← query_var next_token;
              let u := RepoURL.url registry_repo_url in
              Ok (Some (mkURL (url_origin u) (url_path u) [("next", t)]))
          | None => Ok None
          end);
  Ok (mkTagsResponse status
        [("name", JStr (RepoURL.repo registry_repo_url)); ("tags", JList tags)] link).

(** [_handle_aws_ecr_tags_list]: [project] is the configured upstream
    project, [list_images] and [delete_repository] the ECR client's calls,
    [prepare_response_headers] stands for [_prepare_response_headers] on
    the answer's [HTTPHeaders] (only whether it raises). Returns the calls
    made and the response or the exception that escapes. *)
Definition _handle_aws_ecr_tags_list (project : string) (registry_repo_url : RepoURL.t)
    (list_images : list (string * json) -> CallResult (list (string * json)))
    (delete_repository : string -> CallResult unit)
    (prepare_response_headers : json -> result unit)
  : list EcrCall * result TagsResponse :=
  let u := RepoURL.url registry_repo_url in
  match unpack_path (split_on "/" (url_path u)) with
  | None => ([], Err ValueError)
  | Some (user, repository_components) =>
      let repository := join_with "/" repository_components in
      let aws_repository := project +:+ "/" +:+ user +:+ "/" +:+ repository in
      let args :=
        ([("repositoryName", JStr aws_repository);
          ("filter", JObj [("tagStatus", JStr "TAGGED")])] ++
         (if has_key "next" (url_query u)
          then [("nextToken", JStr (default "" (get_first "next" (url_query u))))] else []))%list in
      let repo := RepoURL.repo registry_repo_url in
      match list_images args with
      | ClientError code message => ([ListImages args], Ok (on_client_error repo code message))
      | OtherError e => ([ListImages args], Err e)
      | CallOk client_response =>
          match py_len (default (JList []) (dict_get "imageIds" client_response)) with
          | Err e => ([ListImages args], Err e)
          | Ok n =>
              if Nat.eqb n 0 && negb (has_key "next" (url_query u)) then
                let calls := [ListImages args; DeleteRepository aws_repository] in
                match delete_repository aws_repository with
                | ClientError code message =>
                    if String.eqb code "RepositoryNotEmptyException" then
                      (calls, tags_response prepare_response_headers registry_repo_url client_response)
                    else (calls, Ok (on_client_error repo code message))
                | OtherError e => (calls, Err e)
                | CallOk _ =>
                    (calls, tags_response prepare_response_headers registry_repo_url client_response)
                end
              else
                ([ListImages args],
                 tags_response prepare_response_headers registry_repo_url client_response)
          end
      end
  end.

End ECRTags.

(* ------------------------------------------------------------------ *)
(** ** Lemmas on the string primitives *)

Module PyFacts.

Lemma app_nil_r_str (s : string) : s +:+ "" = s.
Proof. induction s as [|c s IH]; simpl; [done | by rewrite IH]. Qed.

Lemma app_assoc_str (a b c : string) : (a +:+ b) +:+ c = a +:+ (b +:+ c).
Proof. induction a as [|x a IH]; simpl; [done | by rewrite IH]. Qed.

Lemma strip_prefix_app (p s : string) : strip_prefix p (p +:+ s) = Some s.
Proof.
  induction p as [|c p IH]; simpl; [done|].
  by rewrite Ascii.eqb_refl.
Qed.

Lemma strip_prefix_Some (p s t : string) : strip_prefix p s = Some t -> s = p +:+ t.
Proof.
  revert s; induction p as [|c p IH]; intros s H; simpl in *.
  - by inversion H.
  - destruct s as [|d s]; [done|].
    destruct (Ascii.eqb c d) eqn:E; [|done].
    apply Ascii.eqb_eq in E; subst. f_equal. by apply IH.
Qed.

Lemma has_char_app (c : ascii) (a b : string) :
  has_char c (a +:+ b) = has_char c a || has_char c b.
Proof. induction a as [|d a IH]; simpl; [done|]. by rewrite IH, orb_assoc. Qed.

Lemma first_some_app {A B} (f : A -> option B) (l1 l2 : list A) :
  first_some f (l1 ++ l2)%list =
  match first_some f l1 with Some y => Some y | None => first_some f l2 end.
Proof. induction l1 as [|x l1 IH]; simpl; [done|]. by destruct (f x). Qed.

Lemma first_some_map {A A' B} (f : A' -> option B) (g : A -> A') (l : list A) :
  first_some f (map g l) = first_some (fun x => f (g x)) l.
Proof. induction l as [|x l IH]; simpl; [done|]. by rewrite IH. Qed.

Lemma first_some_ext {A B} (f g : A -> option B) (l : list A) :
  (forall x, In x l -> f x = g x) -> first_some f l = first_some g l.
Proof.
  induction l as [|x l IH]; intros H; simpl; [done|].
  rewrite (H x (or_introl eq_refl)). destruct (g x); [done|].
  apply IH. intros y Hy. apply H. by right.
Qed.

Lemma first_some_In {A B} (f : A -> option B) (l : list A) (y : B) :
  first_some f l = Some y -> exists x, In x l /\ f x = Some y.
Proof.
  induction l as [|x l IH]; simpl; [done|].
  destruct (f x) eqn:E; intros H.
  - inversion H; subst. exists x. by split; [left|].
  - destruct (IH H) as (z & Hz & Hf). exists z. by split; [right|].
Qed.

Lemma first_some_map_option {A B C} (f : A -> option B) (h : B -> C) (l : list A) :
  first_some (fun x => option_map h (f x)) l = option_map h (first_some f l).
Proof. induction l as [|x l IH]; simpl; [done|]. by destruct (f x). Qed.

Lemma splits_In (s a b : string) : In (a, b) (splits s) -> s = a +:+ b.
Proof.
  revert a b; induction s as [|c s IH]; intros a b H; simpl in H.
  - destruct H as [H|[]]. by inversion H.
  - apply in_app_or in H. destruct H as [H|[H|[]]].
    + apply in_map_iff in H. destruct H as ([a' b'] & Heq & Hin).
      inversion Heq; subst. simpl. f_equal. by apply IH.
    + by inversion H.
Qed.

(** cutting [a +:+ s]: the cuts inside [s] come first, each prefixed by [a] *)
Lemma splits_app (a s : string) :
  exists rest, splits (a +:+ s) = (map (fun xy => (a +:+ xy.1, xy.2)) (splits s) ++ rest)%list.
Proof.
  induction a as [|c a IH]; simpl.
  - exists []. rewrite app_nil_r. induction (splits s) as [|[x y] l IHl]; simpl; [done|].
    by rewrite <- IHl.
  - destruct IH as [rest Hr]. rewrite Hr, map_app, map_map.
    eexists. rewrite <- app_assoc. reflexivity.
Qed.

Lemma split_on_nonempty (c : ascii) (s : string) : split_on c s <> [].
Proof.
  induction s as [|d s IH]; simpl; [done|].
  destruct (Ascii.eqb d c); [done|]. destruct (split_on c s); done.
Qed.

Lemma split_on_app (c : ascii) (a b : string) :
  split_on c (a +:+ String c b) = (split_on c a ++ split_on c b)%list.
Proof.
  induction a as [|d a IH]; simpl.
  - by rewrite Ascii.eqb_refl.
  - rewrite IH. destruct (Ascii.eqb d c); [done|].
    pose proof (split_on_nonempty c a) as Hne.
    destruct (split_on c a) as [|x r]; [done|]. done.
Qed.

Lemma join_with_cons_char (sep : string) (d : ascii) (x : string) (r : list string) :
  join_with sep (String d x :: r) = String d (join_with sep (x :: r)).
Proof. destruct r; done. Qed.

Lemma join_split (c : ascii) (s : string) :
  join_with (String c "") (split_on c s) = s.
Proof.
  induction s as [|d s IH]; simpl; [done|].
  destruct (Ascii.eqb d c) eqn:E.
  - apply Ascii.eqb_eq in E; subst.
    pose proof (split_on_nonempty c s) as Hne.
    destruct (split_on c s) as [|x r] eqn:Es; [done|].
    simpl. by rewrite <- IH.
  - pose proof (split_on_nonempty c s) as Hne.
    destruct (split_on c s) as [|x r] eqn:Es; [done|].
    rewrite join_with_cons_char. by rewrite IH.
Qed.

Lemma join_with_app (sep : string) (l1 l2 : list string) :
  l1 <> [] -> l2 <> [] ->
  join_with sep (l1 ++ l2)%list = join_with sep l1 +:+ sep +:+ join_with sep l2.
Proof.
  intros H1 H2. induction l1 as [|x l1 IH]; [done|].
  destruct l1 as [|y l1].
  - simpl. destruct l2; done.
  - change ((x :: y :: l1) ++ l2)%list with (x :: ((y :: l1) ++ l2))%list.
    cbn [join_with]. simpl app. rewrite <- (app_assoc_str x).
    change (join_with sep (y :: l1 ++ l2)%list) with (join_with sep ((y :: l1) ++ l2)%list).
    rewrite IH by done.
    change (join_with sep (x :: y :: l1)) with (x +:+ sep +:+ join_with sep (y :: l1)).
    by rewrite !app_assoc_str.
Qed.

End PyFacts.

(* ------------------------------------------------------------------ *)
(** ** The v2 path grammar under a project prefix *)

Module V2Facts.
Import PyFacts.

Lemma splits_shape (s : string) :
  exists init, splits s = (init ++ [("", s)])%list /\
               forall xy, In xy init -> RepoURL.nonempty xy.1 = true.
Proof.
  destruct s as [|c s]; simpl.
  - exists []. by split.
  - eexists. split; [reflexivity|].
    intros xy Hin. apply in_map_iff in Hin. destruct Hin as (ab & <- & _). done.
Qed.

(** the matcher of the v2 grammar, for a candidate cut *)
Definition v2_cut (ab : string * string) : option (string * string) :=
  match strip_prefix "/" ab.2 with
  | Some sfx =>
      if startswith "tags/" sfx || startswith "manifests/" sfx || startswith "blobs/" sfx
      then Some (ab.1, sfx) else None
  | None => None
  end.

Lemma v2_path_match_eq (p : string) :
  RepoURL.v2_path_match p =
  if has_char "010"%char p then None else
  match strip_prefix "/v2/" p with
  | None => None
  | Some s => first_some (fun ab => if RepoURL.nonempty ab.1 then v2_cut ab else None) (splits s)
  end.
Proof. reflexivity. Qed.

Lemma guarded_first (s : string) (y : string * string) :
  first_some (fun ab => if RepoURL.nonempty ab.1 then v2_cut ab else None) (splits s) = Some y ->
  first_some v2_cut (splits s) = Some y.
Proof.
  destruct (splits_shape s) as (init & -> & Hne).
  rewrite !first_some_app. simpl.
  rewrite (first_some_ext _ v2_cut init).
  - destruct (first_some v2_cut init); done.
  - intros xy Hin. by rewrite Hne.
Qed.

Lemma v2_path_match_shape (p r sfx : string) :
  RepoURL.v2_path_match p = Some (r, sfx) ->
  p = "/v2/" +:+ (r +:+ String "/" sfx) /\ RepoURL.nonempty r = true
  /\ has_char "010"%char p = false
  /\ (startswith "tags/" sfx || startswith "manifests/" sfx || startswith "blobs/" sfx) = true.
Proof.
  rewrite v2_path_match_eq.
  destruct (has_char "010"%char p) eqn:Hn; [done|].
  destruct (strip_prefix "/v2/" p) as [s|] eqn:Hs; [|done].
  intros H. apply first_some_In in H. destruct H as ([a b] & Hin & Hf). cbn [fst snd] in Hf.
  destruct (RepoURL.nonempty a) eqn:Ha; [|done].
  unfold v2_cut in Hf. cbn [fst snd] in Hf.
  destruct (strip_prefix "/" b) as [t|] eqn:Hb; [|done].
  destruct (_ || _) eqn:Hk; [|done]. inversion Hf; subst.
  apply strip_prefix_Some in Hs. apply strip_prefix_Some in Hb.
  apply splits_In in Hin. subst. done.
Qed.

Lemma v2_path_match_prefix (a s r sfx : string) :
  RepoURL.nonempty a = true -> has_char "010"%char a = false ->
  RepoURL.v2_path_match ("/v2/" +:+ s) = Some (r, sfx) ->
  RepoURL.v2_path_match ("/v2/" +:+ (a +:+ s)) = Some (a +:+ r, sfx).
Proof.
  intros Ha Hna. rewrite !v2_path_match_eq, !has_char_app, !strip_prefix_app, Hna.
  assert (has_char "010"%char "/v2/" = false) as -> by reflexivity. simpl orb.
  destruct (has_char "010"%char s); [done|].
  intros H. apply guarded_first in H.
  destruct (splits_app a s) as [rest ->].
  rewrite first_some_app, first_some_map.
  rewrite (first_some_ext _ (fun xy => option_map (fun p => (a +:+ p.1, p.2)) (v2_cut xy))).
  - rewrite first_some_map_option, H. done.
  - intros [x y] _. simpl.
    assert (RepoURL.nonempty (a +:+ x) = true) as ->.
    { destruct a; [done|]. done. }
    unfold v2_cut. cbn [fst snd]. destruct (strip_prefix "/" y); [|done].
    destruct (_ || _); done.
Qed.

End V2Facts.

(* ------------------------------------------------------------------ *)
(** ** [urljoin] on well-formed paths *)

Module JoinFacts.
Import PyFacts PathWF.

Lemma resolve_rev_app (acc l : list string) :
  forallb no_dot_seg l = true -> Yarl.resolve_rev acc l = (rev l ++ acc)%list.
Proof.
  revert acc; induction l as [|x l IH]; intros acc H; simpl; [done|].
  apply andb_true_iff in H as [Hx Hl].
  unfold no_dot_seg in Hx. apply andb_true_iff in Hx as [H1 H2].
  apply negb_true_iff in H1, H2. rewrite H1, H2, IH by done.
  by rewrite <- app_assoc.
Qed.

Lemma last_In_or (l : list string) (d : string) : l = [] \/ In (List.last l d) l.
Proof.
  induction l as [|x l IH]; [by left|]. right.
  destruct l as [|y l]; [by left|].
  destruct IH as [IH|IH]; [done|]. by right.
Qed.

Lemma resolve_id (l : list string) :
  forallb no_dot_seg l = true -> Yarl.resolve l = l.
Proof.
  intros H. unfold Yarl.resolve. rewrite resolve_rev_app by done.
  rewrite app_nil_r, rev_involutive.
  destruct (last_In_or l "") as [->|Hin]; [done|].
  rewrite forallb_forall in H. specialize (H _ Hin).
  unfold no_dot_seg in H. apply andb_true_iff in H as [H1 H2].
  apply negb_true_iff in H1, H2. by rewrite H1, H2.
Qed.

Lemma filter_middle_snoc (x y : string) (l : list string) :
  Yarl.filter_middle (x :: l ++ [y])%list =
  (x :: List.filter (fun s => negb (String.eqb s "")) l ++ [y])%list.
Proof. unfold Yarl.filter_middle. by rewrite rev_unit, rev_involutive. Qed.

Lemma filter_nonempty_id (l : list string) :
  forallb RepoURL.nonempty l = true ->
  List.filter (fun s => negb (String.eqb s "")) l = l.
Proof.
  induction l as [|x l IH]; intros H; [done|].
  simpl in H. apply andb_true_iff in H as [Hx Hl]. unfold RepoURL.nonempty in Hx.
  simpl. destruct (String.eqb x ""); [done|]. simpl. f_equal. by apply IH.
Qed.

Lemma split_v2 (X : string) :
  split_on "/" ("/v2/" +:+ X) = "" :: "v2" :: split_on "/" X.
Proof. reflexivity. Qed.

Lemma forallb_andb {A} (f g : A -> bool) (l : list A) :
  forallb (fun x => f x && g x) l = forallb f l && forallb g l.
Proof.
  induction l as [|x l IH]; simpl; [done|]. rewrite IH.
  destruct (f x), (g x), (forallb f l), (forallb g l); done.
Qed.

Lemma wf_segments_app (l1 l2 : list string) :
  l2 <> [] ->
  wf_segments (l1 ++ l2)%list =
  forallb (fun x => RepoURL.nonempty x && no_dot_seg x) l1 && wf_segments l2.
Proof.
  intros H2. unfold wf_segments. rewrite removelast_app by done.
  rewrite !forallb_app, forallb_andb.
  destruct (forallb no_dot_seg l1), (forallb no_dot_seg l2),
    (forallb RepoURL.nonempty l1), (forallb RepoURL.nonempty (removelast l2)); done.
Qed.

Lemma wf_v2_path (N sfx : string) :
  forallb (fun x => RepoURL.nonempty x && no_dot_seg x) (split_on "/" N) = true ->
  wf_segments (split_on "/" sfx) = true ->
  wf_path ("/v2/" +:+ (N +:+ String "/" sfx)) = true.
Proof.
  intros HN Hs. unfold wf_path. rewrite split_v2, split_on_app.
  change ("v2" :: (split_on "/" N ++ split_on "/" sfx))%list
    with ((["v2"] ++ split_on "/" N) ++ split_on "/" sfx)%list.
  rewrite wf_segments_app by apply split_on_nonempty.
  rewrite forallb_app, HN, Hs. done.
Qed.

Lemma wf_v2_path_inv (N sfx : string) :
  wf_path ("/v2/" +:+ (N +:+ String "/" sfx)) = true ->
  forallb (fun x => RepoURL.nonempty x && no_dot_seg x) (split_on "/" N) = true
  /\ wf_segments (split_on "/" sfx) = true.
Proof.
  unfold wf_path. rewrite split_v2, split_on_app.
  change ("v2" :: (split_on "/" N ++ split_on "/" sfx))%list
    with ((["v2"] ++ split_on "/" N) ++ split_on "/" sfx)%list.
  rewrite wf_segments_app by apply split_on_nonempty.
  rewrite forallb_app. intros H.
  apply andb_true_iff in H as [H1 H2]. apply andb_true_iff in H1 as [_ H1]. done.
Qed.

(** joining with a path that starts with [/] and is well-formed keeps it *)
Lemma merge_path_abs (b p : string) :
  startswith "/" p = true -> wf_path p = true -> Yarl.merge_path b p = p.
Proof.
  intros Hs Hw. unfold Yarl.merge_path. rewrite Hs.
  unfold wf_path in Hw.
  destruct (split_on "/" p) as [|[|c x] segs] eqn:Ep; try done.
  rewrite resolve_id.
  - rewrite <- Ep, join_split. destruct p; done.
  - simpl. unfold wf_segments in Hw. apply andb_true_iff in Hw as [Hw _]. done.
Qed.

Lemma join_abs (base : URL) (p : string) (q : list (string * string)) :
  startswith "/" p = true -> wf_path p = true ->
  Yarl.join base (mkURL None p q) = mkURL (url_origin base) p q.
Proof.
  intros Hs Hw. unfold Yarl.join. simpl.
  rewrite merge_path_abs by done. destruct p; done.
Qed.

(** [URL("/v2/{N}/").join(suffix)] for a relative suffix *)
Lemma merge_path_v2 (N sfx : string) :
  forallb (fun x => RepoURL.nonempty x && no_dot_seg x) (split_on "/" N) = true ->
  wf_segments (split_on "/" sfx) = true -> startswith "/" sfx = false ->
  Yarl.merge_path ("/v2/" +:+ (N +:+ "/")) sfx = "/v2/" +:+ (N +:+ String "/" sfx).
Proof.
  intros HN Hs Hrel. unfold Yarl.merge_path.
  rewrite split_v2, (split_on_app "/" N ""). simpl (split_on "/" "").
  assert (List.last ("" :: "v2" :: split_on "/" N ++ [""])%list "" = "") as ->.
  { change ("" :: "v2" :: split_on "/" N ++ [""])%list
      with ((["" ; "v2"] ++ split_on "/" N) ++ [""])%list.
    apply last_last. }
  rewrite String.eqb_refl, Hrel.
  destruct (exists_last (split_on_nonempty "/" sfx)) as (init & y & Ey).
  unfold wf_segments in Hs. rewrite Ey in Hs. rewrite removelast_last in Hs.
  apply andb_true_iff in Hs as [Hnd Hne].
  assert (forallb RepoURL.nonempty (split_on "/" N) = true /\
          forallb no_dot_seg (split_on "/" N) = true) as [HNn HNd].
  { rewrite !forallb_forall in *. split; intros x Hx; specialize (HN x Hx);
    apply andb_true_iff in HN; tauto. }
  rewrite Ey.
  assert ((("" :: "v2" :: split_on "/" N ++ [""]) ++ init ++ [y])%list
          = ("" :: ("v2" :: split_on "/" N ++ "" :: init) ++ [y])%list) as ->.
  { simpl. by rewrite <- !app_assoc. }
  rewrite filter_middle_snoc. simpl List.filter.
  rewrite List.filter_app. simpl List.filter at 2.
  rewrite !filter_nonempty_id by done.
  rewrite resolve_id.
  - assert (("" :: ("v2" :: split_on "/" N ++ init) ++ [y])%list
            = (["" ; "v2"] ++ (split_on "/" N ++ (init ++ [y])))%list) as ->.
    { simpl. by rewrite <- !app_assoc. }
    rewrite <- Ey.
    rewrite join_with_app; cycle 1; [done| |].
    { intros Hc. apply app_eq_nil in Hc as [Hc _]. by apply (split_on_nonempty "/" N). }
    rewrite join_with_app by (apply split_on_nonempty).
    rewrite !join_split. reflexivity.
  - rewrite forallb_app in Hnd.
    apply andb_true_iff in Hnd as [Hnd1 Hnd2].
    cbn [forallb]. rewrite !forallb_app. cbn [forallb]. rewrite !forallb_app.
    rewrite HNd, Hnd1. cbn [forallb] in Hnd2. rewrite Hnd2. done.
Qed.

Lemma join_v2 (N sfx : string) (q : list (string * string)) :
  forallb (fun x => RepoURL.nonempty x && no_dot_seg x) (split_on "/" N) = true ->
  wf_segments (split_on "/" sfx) = true -> startswith "/" sfx = false ->
  RepoURL.nonempty sfx = true ->
  Yarl.join (mkURL None ("/v2/" +:+ (N +:+ "/")) []) (mkURL None sfx q)
  = mkURL None ("/v2/" +:+ (N +:+ String "/" sfx)) q.
Proof.
  intros HN Hs Hrel Hne. unfold Yarl.join. cbn [url_origin url_path url_query].
  unfold RepoURL.nonempty in Hne. apply negb_true_iff in Hne. rewrite Hne.
  by rewrite merge_path_v2.
Qed.

End JoinFacts.

(* ------------------------------------------------------------------ *)
(** ** Round trip of the repo rewriting (C1) *)

Module RoundTrip.
Import PyFacts PathWF V2Facts JoinFacts.

Lemma from_url_inv (u : URL) (x : RepoURL.t) :
  RepoURL.from_url u = Some x ->
  RepoURL.url x = u /\ exists s, RepoURL.parse u = Some (RepoURL.repo x, RepoURL.mounted_repo x, s).
Proof.
  unfold RepoURL.from_url. destruct (RepoURL.parse u) as [[[r m] s]|] eqn:E; [|done].
  intros H. inversion H; subst. simpl. split; [done|]. by exists s.
Qed.

Lemma parse_v2 (u : URL) :
  RepoURL.skip_perms_match u = None ->
  RepoURL.parse u =
  match RepoURL.v2_path_match (url_path u) with
  | None => None
  | Some (r, sfx) =>
      Some (r, (if contains "blobs/uploads" sfx && has_key "from" (url_query u)
                then default "" (get_first "from" (url_query u)) else ""),
            mkURL None sfx (url_query u))
  end.
Proof. intros H. unfold RepoURL.parse. by rewrite H. Qed.

Lemma kw_relative (sfx : string) :
  (startswith "tags/" sfx || startswith "manifests/" sfx || startswith "blobs/" sfx) = true ->
  startswith "/" sfx = false /\ RepoURL.nonempty sfx = true.
Proof.
  destruct sfx as [|c s]; [done|]. cbn [startswith].
  destruct (Ascii.eqb "/" c) eqn:E; [|done].
  apply Ascii.eqb_eq in E. subst. done.
Qed.

Lemma clean_parts (P : string) :
  clean P = true ->
  forallb (fun x => RepoURL.nonempty x && no_dot_seg x) (split_on "/" P) = true
  /\ has_char "010"%char P = false.
Proof. unfold clean. intros H. apply andb_true_iff in H as [H1 H2]. by destruct (has_char _ P). Qed.

Lemma with_origin_abs (r : RepoURL.t) (o : URL) (p : string) (q : list (string * string)) :
  url_path (RepoURL.url r) = p -> url_query (RepoURL.url r) = q ->
  startswith "/" p = true -> wf_path p = true ->
  RepoURL.with_origin r o = RepoURL.mk (RepoURL.repo r) (mkURL (url_origin o) p q) (RepoURL.mounted_repo r).
Proof.
  intros Hp Hq Hs Hw. unfold RepoURL.with_origin.
  destruct r as [rr [ro rp rq] rm]; cbn [RepoURL.url url_path url_query] in Hp, Hq; subst.
  destruct ro; cbn [Yarl.is_absolute Yarl.relative RepoURL.url RepoURL.repo
    RepoURL.mounted_repo url_origin url_path url_query]; unfold Yarl.relative;
    by rewrite join_abs.
Qed.

Lemma skip_none (x : RepoURL.t) :
  RepoURL.allow_skip_perms x = false -> RepoURL.skip_perms_match (RepoURL.url x) = None.
Proof. unfold RepoURL.allow_skip_perms. by destruct (RepoURL.skip_perms_match _). Qed.

(** The upstream URL built for a well-formed, non-passthrough registry URL
    when no upstream repo is configured. *)
Lemma upstream_url_shape (f : URLFactory) (u : URL) (x : RepoURL.t) :
  upstream_repo f = None -> clean (upstream_project f) = true ->
  wf_path (url_path u) = true ->
  RepoURL.from_url u = Some x -> RepoURL.allow_skip_perms x = false ->
  exists sfx,
    url_path u = "/v2/" +:+ (RepoURL.repo x +:+ String "/" sfx) /\
    RepoURL.v2_path_match (url_path u) = Some (RepoURL.repo x, sfx) /\
    wf_segments (split_on "/" sfx) = true /\ startswith "/" sfx = false /\
    RepoURL.nonempty sfx = true /\
    forallb (fun x => RepoURL.nonempty x && no_dot_seg x) (split_on "/" (RepoURL.repo x)) = true /\
    create_upstream_repo_url f x =
      Some (RepoURL.mk (upstream_project f +:+ String "/" (RepoURL.repo x))
        (mkURL (url_origin (upstream_endpoint_url f))
           ("/v2/" +:+ ((upstream_project f +:+ String "/" (RepoURL.repo x)) +:+ String "/" sfx))
           (if RepoURL.nonempty (RepoURL.mounted_repo x)
            then Yarl.update_query1 "from" (upstream_project f +:+ "/" +:+ RepoURL.mounted_repo x) (url_query u)
            else url_query u))
        (if RepoURL.nonempty (RepoURL.mounted_repo x)
         then upstream_project f +:+ "/" +:+ RepoURL.mounted_repo x else "")).
Proof.
  intros Hup HP Hw Hx Hskip.
  destruct (from_url_inv _ _ Hx) as [Hu [s0 Hparse]].
  pose proof (skip_none _ Hskip) as Hsk. rewrite Hu in Hsk.
  rewrite parse_v2 in Hparse by done.
  destruct (RepoURL.v2_path_match (url_path u)) as [[r sfx]|] eqn:Hm; [|done].
  injection Hparse as Hr _ _. subst r.
  destruct (v2_path_match_shape _ _ _ Hm) as (Hpath & _ & _ & Hkw).
  destruct (kw_relative _ Hkw) as [Hrel Hsne].
  rewrite Hpath in Hw. destruct (wf_v2_path_inv _ _ Hw) as [Hrseg Hsseg].
  destruct (clean_parts _ HP) as [HPseg _].
  exists sfx. do 6 (split; [done|]).
  assert (HN : forallb (fun x => RepoURL.nonempty x && no_dot_seg x)
      (split_on "/" (upstream_project f +:+ String "/" (RepoURL.repo x))) = true)
    by (rewrite split_on_app, forallb_app, HPseg, Hrseg; done).
  assert (Hj : forall qq, Yarl.join (mkURL None ("/v2/" +:+ (upstream_project f +:+ "/" +:+ "" +:+ RepoURL.repo x) +:+ "/") [])
      (mkURL None sfx qq) = mkURL None ("/v2/" +:+ ((upstream_project f +:+ String "/" (RepoURL.repo x)) +:+ String "/" sfx)) qq)
    by (intros qq; exact (join_v2 _ sfx qq HN Hsseg Hrel Hsne)).
  unfold create_upstream_repo_url. rewrite Hskip.
  unfold RepoURL.with_project. rewrite Hu, (parse_v2 u Hsk), Hm, Hup.
  destruct (RepoURL.nonempty (RepoURL.mounted_repo x));
    cbn [url_origin url_path url_query]; rewrite Hj, join_abs by (done || by apply wf_v2_path);
    f_equal; by apply with_origin_abs; [| | done | apply wf_v2_path].
Qed.

(** C1 (amended): for a well-formed, non-passthrough registry URL and a
    factory without upstream repo, mapping to the upstream URL and back
    recovers the repo name and the URL path, puts the URL on the registry
    origin, and keeps the query except that a [from] (cross-repo mount)
    parameter comes back prefixed with the upstream project, as does the
    mounted repo. *)
Theorem create_registry_repo_url_roundtrip (f : URLFactory) (u : URL) (x : RepoURL.t) :
  upstream_repo f = None -> clean (upstream_project f) = true ->
  wf_path (url_path u) = true ->
  RepoURL.from_url u = Some x -> RepoURL.allow_skip_perms x = false ->
  (forall u', create_upstream_repo_url f x = Some u' -> RepoURL.allow_skip_perms u' = false) ->
  exists u' y,
    create_upstream_repo_url f x = Some u' /\
    create_registry_repo_url f u' = Some y /\
    RepoURL.repo y = RepoURL.repo x /\
    url_path (RepoURL.url y) = url_path u /\
    url_origin (RepoURL.url y) = url_origin (registry_endpoint_url f) /\
    url_query (RepoURL.url y) =
      (if RepoURL.nonempty (RepoURL.mounted_repo x)
       then Yarl.update_query1 "from" (upstream_project f +:+ "/" +:+ RepoURL.mounted_repo x) (url_query u)
       else url_query u) /\
    RepoURL.mounted_repo y =
      (if RepoURL.nonempty (RepoURL.mounted_repo x)
       then upstream_project f +:+ "/" +:+ RepoURL.mounted_repo x else "").
Proof.
  intros Hup HP Hw Hx Hskip Hnp.
  destruct (upstream_url_shape f u x Hup HP Hw Hx Hskip)
    as (sfx & Hpath & Hm & Hsseg & Hrel & Hsne & Hrseg & Hc).
  destruct (clean_parts _ HP) as [HPseg HPnl].
  specialize (Hnp _ Hc). pose proof (skip_none _ Hnp) as Hsk.
  set (P := upstream_project f) in *.
  set (q' := if RepoURL.nonempty (RepoURL.mounted_repo x) then _ else _) in *.
  set (m' := if RepoURL.nonempty (RepoURL.mounted_repo x) then _ else _) in *.
  set (oU := url_origin (upstream_endpoint_url f)) in *.
  assert (HN : P +:+ String "/" (RepoURL.repo x) = (P +:+ "/") +:+ RepoURL.repo x)
    by (rewrite app_assoc_str; reflexivity).
  assert (Hm2 : RepoURL.v2_path_match ("/v2/" +:+ ((P +:+ String "/" (RepoURL.repo x)) +:+ String "/" sfx))
                = Some ((P +:+ "/") +:+ RepoURL.repo x, sfx)).
  { rewrite HN, app_assoc_str. apply v2_path_match_prefix.
    - by destruct P.
    - rewrite has_char_app, HPnl. done.
    - by rewrite <- Hpath. }
  eexists _, _. split; [exact Hc|].
  unfold create_registry_repo_url. cbn [RepoURL.repo]. fold P.
  replace (strip_prefix (P +:+ "/") (P +:+ String "/" (RepoURL.repo x)))
    with (Some (RepoURL.repo x)) by (rewrite HN; symmetry; apply strip_prefix_app).
  unfold RepoURL.with_repo. cbn [RepoURL.url] in *.
  rewrite (parse_v2 _ Hsk). cbn [url_path url_query]. rewrite Hm2.
  cbn [url_origin url_path url_query].
  rewrite (join_v2 _ sfx q' Hrseg Hsseg Hrel Hsne).
  rewrite join_abs by (done || by rewrite <- Hpath).
  split; [reflexivity|].
  rewrite (with_origin_abs _ (registry_endpoint_url f) (url_path u) q');
    [| cbn [RepoURL.url url_path]; by rewrite Hpath | reflexivity
     | rewrite Hpath; reflexivity | exact Hw].
  cbn [RepoURL.repo RepoURL.url RepoURL.mounted_repo url_origin url_path url_query].
  repeat split.
Qed.

Lemma create_registry_repo_url_roundtrip_witness :
  let f := mkURLFactory (mkURL (Some "https://registry.example") "" [])
             (mkURL (Some "https://upstream.example") "" []) "neuro" None in
  let u := mkURL (Some "https://example.com") "/v2/this/img/blobs/uploads/"
             [("what", "ever"); ("from", "another/img")] in
  let x := RepoURL.mk "this/img" u "another/img" in
  RepoURL.from_url u = Some x /\
  exists u' y,
    create_upstream_repo_url f x = Some u' /\
    create_registry_repo_url f u' = Some y /\
    RepoURL.repo y = RepoURL.repo x /\
    url_path (RepoURL.url y) = url_path u /\
    url_origin (RepoURL.url y) = url_origin (registry_endpoint_url f) /\
    url_query (RepoURL.url y) =
      (if RepoURL.nonempty (RepoURL.mounted_repo x)
       then Yarl.update_query1 "from" (upstream_project f +:+ "/" +:+ RepoURL.mounted_repo x) (url_query u)
       else url_query u) /\
    RepoURL.mounted_repo y =
      (if RepoURL.nonempty (RepoURL.mounted_repo x)
       then upstream_project f +:+ "/" +:+ RepoURL.mounted_repo x else "").
Proof.
  intros f u x. split; [vm_compute; reflexivity|].
  apply (create_registry_repo_url_roundtrip f u x);
    [reflexivity | vm_compute; reflexivity | vm_compute; reflexivity
    | vm_compute; reflexivity | vm_compute; reflexivity
    | intros u' Hu'; vm_compute in Hu'; injection Hu' as <-; vm_compute; reflexivity].
Defined.

(** With a cross-repo mount parameter [from=another/img], the URL mapped
    to the upstream and back carries [from=neuro/another/img] and mounted
    repo [neuro/another/img], not the query and mounted repo of the
    original registry URL. *)
Lemma create_registry_repo_url_roundtrip_from_cex :
  let f := mkURLFactory (mkURL (Some "https://registry.example") "" [])
             (mkURL (Some "https://upstream.example") "" []) "neuro" None in
  let u := mkURL (Some "https://example.com") "/v2/this/img/blobs/uploads/"
             [("what", "ever"); ("from", "another/img")] in
  exists x u' y,
    RepoURL.from_url u = Some x /\ RepoURL.allow_skip_perms x = false /\
    create_upstream_repo_url f x = Some u' /\
    create_registry_repo_url f u' = Some y /\
    RepoURL.repo y = RepoURL.repo x /\
    url_query (RepoURL.url y) = [("what", "ever"); ("from", "neuro/another/img")] /\
    url_query (RepoURL.url y) <> url_query (RepoURL.url x) /\
    RepoURL.mounted_repo y = "neuro/another/img" /\
    RepoURL.mounted_repo y <> RepoURL.mounted_repo x.
Proof.
  intros f u. vm_compute. do 3 eexists.
  split; [reflexivity|]. split; [reflexivity|]. split; [reflexivity|].
  split; [reflexivity|]. split; [reflexivity|]. split; [reflexivity|].
  split; [discriminate|]. split; [reflexivity|]. discriminate.
Qed.

End RoundTrip.

(* ------------------------------------------------------------------ *)
(** ** Permission tree walk (C2) *)

Module HelpersFacts.
Import Helpers.

Lemma not_deny_list_at_least_read (a : Action) : not_deny_list a = at_least_read a.
Proof. by destruct a. Qed.

Lemma leaves_allowed (l : list node) :
  negb (existsb (fun leaf => negb (not_deny_list (action leaf))) l)
  = forallb (fun leaf => at_least_read (action leaf)) l.
Proof.
  induction l as [|x l IH]; simpl; [done|].
  rewrite not_deny_list_at_least_read. by destruct (at_least_read (action x)).
Qed.

Lemma walk_amended_eq (parts : list string) (nd : node) :
  walk parts nd = walk_amended parts nd.
Proof.
  revert nd. induction parts as [|p rest IH]; intros [a ch]; simpl.
  - apply not_deny_list_at_least_read.
  - destruct a; simpl; try done.
    destruct (dict_get p ch) as [c|]; [apply IH|].
    destruct (matching_leaves p ch) as [|l ls]; [done|].
    exact (leaves_allowed (l :: ls)).
Qed.

(** C2 (amended): [check_image_catalog_permission] splits the image name on
    [/] and walks the tree from the root, descending only through nodes
    whose action is [list]; a node with any other action ends the walk with
    the answer "its action is at least read"; at a [list] node without a
    child for the next segment, the childless children named
    [segment:tag] decide: none gives false, otherwise true iff all of them
    are at least read; when the segments are exhausted the answer is
    whether the last node's action is at least read. *)
Theorem check_image_catalog_permission_walk (image : string) (tree : node) :
  check_image_catalog_permission image tree = walk_amended (split_on "/" image) tree.
Proof. apply walk_amended_eq. Qed.

(** Two trees where the code and the walk described by the claim differ:
    a [deny] root above a [manage] child (code: false; claim: true), and a
    [list] root whose only child for [img] is the leaf [img:tag] with
    [manage] (code: true; claim: false for the missing child). *)
Lemma check_image_catalog_permission_walk_cex :
  check_image_catalog_permission "a" (Node A_deny [("a", Node A_manage [])]) = false /\
  walk_as_specified (split_on "/" "a") (Node A_deny [("a", Node A_manage [])]) = true /\
  check_image_catalog_permission "img" (Node A_list [("img:tag", Node A_manage [])]) = true /\
  walk_as_specified (split_on "/" "img") (Node A_list [("img:tag", Node A_manage [])]) = false.
Proof. vm_compute. repeat split. Qed.

End HelpersFacts.

(* ------------------------------------------------------------------ *)
(** ** The generic repo handler (C3, C4, C7) *)

Module HandlerFacts.
Import PyFacts Handler.

Lemma create_upstream_some (f : URLFactory) (u : URL) (x : RepoURL.t) :
  RepoURL.from_url u = Some x -> exists y, create_upstream_repo_url f x = Some y.
Proof.
  intros Hx. destruct (RoundTrip.from_url_inv _ _ Hx) as [Hu [s Hp]].
  unfold create_upstream_repo_url. destruct (RepoURL.allow_skip_perms x); [by eexists|].
  unfold RepoURL.with_project. rewrite Hu, Hp.
  destruct (RepoURL.nonempty (RepoURL.mounted_repo x)); by eexists.
Qed.

(** [handle] once the registry URL is parsed and its permission check
    has passed or been skipped. *)
Lemma handle_after_check (cfg : Config) (up : Upstream) (env : Env) (req : Request)
    (x : RepoURL.t) (chk : result unit) :
  RepoURL.from_url (request_url req) = Some x ->
  (if RepoURL.allow_skip_perms x then Ok tt
   else check_user_permissions cfg env (permissions cfg req x)) = chk ->
  handle cfg up env req =
  match chk with
  | Err e => Err e
  | Ok _ =>
      match create_upstream_repo_url (create_url_factory cfg req) x with
      | None => Err ValueError
      | Some y =>
          _ ← (if is_pull_request req then Ok tt else create_repo up env (RepoURL.repo y));
          auth_headers ← get_headers_for_repo up env [RepoURL.repo y; RepoURL.mounted_repo y];
          Ok (mkProxyCall (RepoURL.url y) auth_headers)
      end
  end.
Proof.
  intros Hx Hc. unfold handle, mbind, result_bind, of_option. rewrite Hx.
  cbv beta iota zeta. rewrite Hc.
  destruct chk; [|done]. by destruct (create_upstream_repo_url _ x).
Qed.

Lemma check_user_permissions_ok (cfg : Config) (env : Env) (ps : list Permission) :
  check_user_permissions cfg env ps = Ok tt <->
  RepoURL.nonempty (cluster_name cfg) = true /\
  exists user, authorized_userid (security env) = Some user /\ permits (security env) user ps = true.
Proof.
  unfold check_user_permissions, check_permission, check_authorized, mbind, result_bind.
  destruct (RepoURL.nonempty (cluster_name cfg)); [|split; [done | by intros []]].
  destruct (authorized_userid (security env)) as [user|].
  - destruct (permits (security env) user ps) eqn:E.
    + split; [|done]. intros _. split; [done|]. by exists user.
    + split; [done|]. intros [_ (user' & Hu & Hp)]. inversion Hu; subst. congruence.
  - split; [done|]. by intros [_ (user' & Hu & _)].
Qed.

Lemma get_first_has_key (k v : string) (q : list (string * string)) :
  get_first k q = Some v -> has_key k q = true.
Proof.
  induction q as [|[k' v'] q IH]; simpl; [done|].
  destruct (String.eqb k' k); [done|]. intros H. rewrite (IH H). apply orb_true_r.
Qed.

Lemma allow_skip_perms_url (x : RepoURL.t) :
  RepoURL.skip_perms_match (RepoURL.url x) = None -> RepoURL.allow_skip_perms x = false.
Proof. unfold RepoURL.allow_skip_perms. by intros ->. Qed.

(** C3 (amended): with the Basic upstream, every non-passthrough request
    whose permission check passes reaches
    [get_headers_for_repo(repo, mounted_repo)] with two positional
    arguments, which [BasicUpstream.get_headers_for_repo(self, repo)]
    does not accept: the handler raises [TypeError] for every such
    request, with or without a mounted repo. *)
Theorem handle_basic_type_error (cfg : Config) (env : Env) (req : Request) (x : RepoURL.t) :
  RepoURL.from_url (request_url req) = Some x ->
  RepoURL.allow_skip_perms x = false ->
  check_user_permissions cfg env (permissions cfg req x) = Ok tt ->
  handle cfg BasicUpstream env req = Err TypeError.
Proof.
  intros Hx Hs Hc.
  rewrite (handle_after_check cfg BasicUpstream env req x (Ok tt) Hx) by (by rewrite Hs).
  destruct (create_upstream_some (create_url_factory cfg req) _ _ Hx) as [y ->].
  by destruct (is_pull_request req).
Qed.

Lemma handle_basic_type_error_witness :
  let cfg := mkConfig "default" "Docker Registry"
               (mkUpstreamRegistryConfig (mkURL (Some "https://upstream.example") "" []) "neuro" None 1000) in
  let env := mkEnv (mkSecurity (Some "alice") (fun _ _ => true)) (fun _ _ _ => []) (fun _ => Ok tt) in
  let req := mkRequest "GET" (mkURL (Some "https://registry.example") "/v2/alice/img/tags/list" []) in
  let x := RepoURL.mk "alice/img" (request_url req) "" in
  RepoURL.from_url (request_url req) = Some x /\ RepoURL.allow_skip_perms x = false /\
  check_user_permissions cfg env (permissions cfg req x) = Ok tt /\
  handle cfg BasicUpstream env req = Err TypeError.
Proof.
  intros cfg env req x.
  split; [vm_compute; reflexivity|]. split; [vm_compute; reflexivity|].
  split; [vm_compute; reflexivity|].
  apply (handle_basic_type_error cfg env req x);
    [vm_compute; reflexivity | vm_compute; reflexivity | vm_compute; reflexivity].
Defined.

(** A non-passthrough request from an unauthenticated caller never
    reaches [get_headers_for_repo]: the handler raises the 401 of the
    permission check, not [TypeError]. *)
Lemma handle_basic_type_error_cex :
  let cfg := mkConfig "default" "Docker Registry"
               (mkUpstreamRegistryConfig (mkURL (Some "https://upstream.example") "" []) "neuro" None 1000) in
  let env := mkEnv (mkSecurity None (fun _ _ => true)) (fun _ _ _ => []) (fun _ => Ok tt) in
  let req := mkRequest "GET" (mkURL (Some "https://registry.example") "/v2/alice/img/tags/list" []) in
  (exists x, RepoURL.from_url (request_url req) = Some x /\ RepoURL.allow_skip_perms x = false) /\
  handle cfg BasicUpstream env req = Err (raise_unauthorized cfg) /\
  handle cfg BasicUpstream env req <> Err TypeError.
Proof.
  intros cfg env req. vm_compute. split; [eexists; split; reflexivity|].
  split; [reflexivity | discriminate].
Qed.

(** C4 (amended): for a non-passthrough repo request (with a cluster name
    configured) whose permission check fails, an unauthenticated caller
    gets 401 with [WWW-Authenticate: Basic realm="{server name}"], and an
    authenticated caller whose permissions are denied gets 403
    ([HTTPForbidden], which [_check_user_permissions] does not catch). *)
Theorem handle_permission_failure (cfg : Config) (up : Upstream) (env : Env)
    (req : Request) (x : RepoURL.t) :
  RepoURL.from_url (request_url req) = Some x ->
  RepoURL.allow_skip_perms x = false ->
  RepoURL.nonempty (cluster_name cfg) = true ->
  (authorized_userid (security env) = None ->
   handle cfg up env req =
   Err (HTTPUnauthorized
          [("WWW-Authenticate", "Basic realm=" +:+ String quote (server_name cfg +:+ String quote ""))])) /\
  (forall user, authorized_userid (security env) = Some user ->
   permits (security env) user (permissions cfg req x) = false ->
   handle cfg up env req = Err HTTPForbidden).
Proof.
  intros Hx Hs Hcl. split.
  - intros Hn.
    rewrite (handle_after_check cfg up env req x (Err (raise_unauthorized cfg)) Hx); [done|].
    rewrite Hs. unfold check_user_permissions. rewrite Hcl.
    unfold check_permission, check_authorized, mbind, result_bind. by rewrite Hn.
  - intros user Hu Hp.
    rewrite (handle_after_check cfg up env req x (Err HTTPForbidden) Hx); [done|].
    rewrite Hs. unfold check_user_permissions. rewrite Hcl.
    unfold check_permission, check_authorized, mbind, result_bind. by rewrite Hu, Hp.
Qed.

Lemma handle_permission_failure_witness :
  let cfg := mkConfig "default" "Docker Registry"
               (mkUpstreamRegistryConfig (mkURL (Some "https://upstream.example") "" []) "neuro" None 1000) in
  let env := mkEnv (mkSecurity (Some "alice") (fun _ _ => false)) (fun _ _ _ => []) (fun _ => Ok tt) in
  let req := mkRequest "GET" (mkURL (Some "https://registry.example") "/v2/bob/img/tags/list" []) in
  let x := RepoURL.mk "bob/img" (request_url req) "" in
  RepoURL.from_url (request_url req) = Some x /\ RepoURL.allow_skip_perms x = false /\
  RepoURL.nonempty (cluster_name cfg) = true /\
  handle cfg OAuthUpstream env req = Err HTTPForbidden.
Proof.
  intros cfg env req x.
  split; [vm_compute; reflexivity|]. split; [vm_compute; reflexivity|].
  split; [vm_compute; reflexivity|].
  apply (proj2 (handle_permission_failure cfg OAuthUpstream env req x
                  ltac:(vm_compute; reflexivity) ltac:(vm_compute; reflexivity)
                  ltac:(vm_compute; reflexivity)) "alice");
    vm_compute; reflexivity.
Defined.

(** An authenticated caller without the permission gets 403, not 401. *)
Lemma handle_permission_failure_cex :
  let cfg := mkConfig "default" "Docker Registry"
               (mkUpstreamRegistryConfig (mkURL (Some "https://upstream.example") "" []) "neuro" None 1000) in
  let env := mkEnv (mkSecurity (Some "alice") (fun _ _ => false)) (fun _ _ _ => []) (fun _ => Ok tt) in
  let req := mkRequest "POST" (mkURL (Some "https://registry.example") "/v2/alice/img/blobs/uploads/"
                                 [("from", "bob/secret")]) in
  (exists x, RepoURL.from_url (request_url req) = Some x /\ RepoURL.allow_skip_perms x = false) /\
  handle cfg OAuthUpstream env req = Err HTTPForbidden /\
  (forall h, handle cfg OAuthUpstream env req <> Err (HTTPUnauthorized h)).
Proof.
  intros cfg env req. vm_compute. split; [eexists; split; reflexivity|].
  split; [reflexivity | discriminate].
Qed.

(** C7 (amended): a POST to [/v2/{repo}/blobs/uploads/] with a non-empty
    [from={other}] parameter whose path is not a passthrough path: the
    handler checks exactly two permissions, [write] on
    [image://{cluster}/{repo}] and [read] on [image://{cluster}/{other}],
    and forwards the request only if the caller is authenticated and the
    auth service grants both. *)
Theorem handle_cross_repo_mount (cfg : Config) (up : Upstream) (env : Env) (req : Request)
    (r other : string) :
  method req = "POST" ->
  RepoURL.skip_perms_match (request_url req) = None ->
  RepoURL.v2_path_match (url_path (request_url req)) = Some (r, "blobs/uploads/") ->
  get_first "from" (url_query (request_url req)) = Some other ->
  RepoURL.nonempty other = true ->
  exists x,
    RepoURL.from_url (request_url req) = Some x /\
    permissions cfg req x =
      [mkPermission (create_image_uri cfg r) "write"; mkPermission (create_image_uri cfg other) "read"] /\
    (forall call, handle cfg up env req = Ok call ->
     exists user, authorized_userid (security env) = Some user /\
       permits (security env) user
         [mkPermission (create_image_uri cfg r) "write";
          mkPermission (create_image_uri cfg other) "read"] = true).
Proof.
  intros Hmeth Hsk Hm Hfrom Hne.
  exists (RepoURL.mk r (request_url req) other).
  assert (Hx : RepoURL.from_url (request_url req) = Some (RepoURL.mk r (request_url req) other)).
  { unfold RepoURL.from_url. rewrite (RoundTrip.parse_v2 _ Hsk), Hm.
    rewrite (get_first_has_key _ _ _ Hfrom), Hfrom. reflexivity. }
  assert (Hperm : permissions cfg req (RepoURL.mk r (request_url req) other) =
      [mkPermission (create_image_uri cfg r) "write"; mkPermission (create_image_uri cfg other) "read"]).
  { unfold permissions, is_pull_request. rewrite Hmeth.
    cbn [RepoURL.repo RepoURL.mounted_repo]. by rewrite Hne. }
  split; [exact Hx|]. split; [exact Hperm|].
  intros call H.
  rewrite (handle_after_check cfg up env req _ _ Hx eq_refl) in H.
  rewrite (allow_skip_perms_url (RepoURL.mk r (request_url req) other) Hsk) in H.
  destruct (check_user_permissions cfg env _) as [[]|e] eqn:E; [|discriminate].
  apply check_user_permissions_ok in E. destruct E as [_ (user & Hu & Hp)].
  rewrite Hperm in Hp. by exists user.
Qed.

Lemma handle_cross_repo_mount_witness :
  let cfg := mkConfig "default" "Docker Registry"
               (mkUpstreamRegistryConfig (mkURL (Some "https://upstream.example") "" []) "neuro" None 1000) in
  let env := mkEnv (mkSecurity (Some "alice") (fun _ _ => true)) (fun _ _ _ => []) (fun _ => Ok tt) in
  let req := mkRequest "POST" (mkURL (Some "https://registry.example") "/v2/alice/img/blobs/uploads/"
                                 [("from", "alice/other")]) in
  RepoURL.skip_perms_match (request_url req) = None /\
  RepoURL.v2_path_match (url_path (request_url req)) = Some ("alice/img", "blobs/uploads/") /\
  exists x,
    RepoURL.from_url (request_url req) = Some x /\
    permissions cfg req x =
      [mkPermission (create_image_uri cfg "alice/img") "write";
       mkPermission (create_image_uri cfg "alice/other") "read"] /\
    (forall call, handle cfg OAuthUpstream env req = Ok call ->
     exists user, authorized_userid (security env) = Some user /\
       permits (security env) user
         [mkPermission (create_image_uri cfg "alice/img") "write";
          mkPermission (create_image_uri cfg "alice/other") "read"] = true).
Proof.
  intros cfg env req.
  split; [vm_compute; reflexivity|]. split; [vm_compute; reflexivity|].
  apply (handle_cross_repo_mount cfg OAuthUpstream env req "alice/img" "alice/other");
    vm_compute; reflexivity.
Defined.

(** A cross-repo mount whose repo ends in [/pkg] matches the passthrough
    path [/v2/{project}/{repo}/pkg/blobs/...]: no permission is checked,
    and the request of an unauthenticated caller is forwarded. *)
Lemma handle_cross_repo_mount_cex :
  let cfg := mkConfig "default" "Docker Registry"
               (mkUpstreamRegistryConfig (mkURL (Some "https://upstream.example") "" []) "neuro" None 1000) in
  let env := mkEnv (mkSecurity None (fun _ _ => false)) (fun _ _ _ => []) (fun _ => Ok tt) in
  let req := mkRequest "POST" (mkURL (Some "https://registry.example") "/v2/alice/img/pkg/blobs/uploads/"
                                 [("from", "bob/secret")]) in
  method req = "POST" /\
  RepoURL.v2_path_match (url_path (request_url req)) = Some ("alice/img/pkg", "blobs/uploads/") /\
  get_first "from" (url_query (request_url req)) = Some "bob/secret" /\
  authorized_userid (security env) = None /\
  exists call, handle cfg OAuthUpstream env req = Ok call.
Proof.
  intros cfg env req. vm_compute.
  split; [reflexivity|]. split; [reflexivity|]. split; [reflexivity|].
  split; [reflexivity|]. eexists. reflexivity.
Qed.

End HandlerFacts.

(* ------------------------------------------------------------------ *)
(** ** The catalog handler (C5, C6) *)

Module CatalogFacts.
Import PyFacts Handler Catalog.

Lemma get_first_filter (k : string) (p : string * string -> bool) (q : list (string * string)) :
  (forall kv, String.eqb kv.1 k = true -> p kv = true) ->
  get_first k (List.filter p q) = get_first k q.
Proof.
  intros Hp. induction q as [|[k' v] q IH]; simpl; [done|].
  destruct (String.eqb k' k) eqn:E.
  - rewrite (Hp (k', v) E). simpl. by rewrite E.
  - destruct (p (k', v)); simpl; [rewrite E|]; done.
Qed.

Lemma get_first_filter_out (k : string) (p : string * string -> bool) (q : list (string * string)) :
  (forall kv, String.eqb kv.1 k = true -> p kv = false) ->
  get_first k (List.filter p q) = None.
Proof.
  intros Hp. induction q as [|[k' v] q IH]; simpl; [done|].
  destruct (String.eqb k' k) eqn:E.
  - by rewrite (Hp (k', v) E).
  - destruct (p (k', v)); simpl; [rewrite E|]; done.
Qed.

Lemma validator_page_keys (q : list (string * string)) :
  CATALOG_PAGE_VALIDATOR (List.filter page_key q) = CATALOG_PAGE_VALIDATOR q.
Proof.
  unfold CATALOG_PAGE_VALIDATOR.
  rewrite !get_first_filter; [done| |];
    intros [k v]; unfold page_key; simpl; intros ->; [apply orb_true_r | done].
Qed.

Lemma validator_no_page_keys (q : list (string * string)) :
  CATALOG_PAGE_VALIDATOR (List.filter (fun kv => negb (page_key kv)) q) = Some (mkCatalogPage 100 "").
Proof.
  unfold CATALOG_PAGE_VALIDATOR.
  rewrite !get_first_filter_out; [done| |];
    intros [k v]; unfold page_key; simpl; intros H; apply String.eqb_eq in H; subst; done.
Qed.

Lemma validator_positive (q : list (string * string)) (page : CatalogPage) :
  CATALOG_PAGE_VALIDATOR q = Some page -> (0 < number page)%Z.
Proof.
  unfold CATALOG_PAGE_VALIDATOR.
  destruct (get_first "n" q) as [v|].
  - destruct (py_int v) as [z|]; [|done].
    destruct (Z.ltb 0 z) eqn:E; [|done]. apply Z.ltb_lt in E.
    destruct (get_first "last" q) as [l|]; [destruct (RepoURL.nonempty l)|];
      intros H; inversion H; subst; simpl; lia.
  - destruct (get_first "last" q) as [l|]; [destruct (RepoURL.nonempty l)|];
      intros H; inversion H; subst; simpl; lia.
Qed.

(** C5 (amended): query parameters other than [n] and [last] are accepted
    and ignored: the catalog handler answers a request exactly as it
    answers the same request with only its [n] and [last] parameters, and
    a query with neither gets the default page [n=100], [last=""]. *)
Theorem handle_catalog_ignores_extra_params (fuel : nat) (cfg : Config) (env : CatalogEnv)
    (req : Request) :
  handle_catalog fuel cfg env req =
  handle_catalog fuel cfg env
    (mkRequest (method req)
       (mkURL (url_origin (request_url req)) (url_path (request_url req))
          (List.filter page_key (url_query (request_url req))))) /\
  CATALOG_PAGE_VALIDATOR (List.filter (fun kv => negb (page_key kv)) (url_query (request_url req)))
  = Some (mkCatalogPage 100 "").
Proof.
  split; [|apply validator_no_page_keys].
  unfold handle_catalog, create_url_factory. cbn [request_url url_query url_origin].
  by rewrite validator_page_keys.
Qed.

(** An unknown parameter [foo=x] is not rejected: the handler asks the
    upstream for the default page and lists what it returns. *)
Lemma handle_catalog_ignores_extra_params_cex :
  let cfg := mkConfig "default" "Docker Registry"
               (mkUpstreamRegistryConfig (mkURL (Some "https://upstream.example") "" []) "neuro" None 1000) in
  let env := mkCatalogEnv (mkSecurity (Some "alice") (fun _ _ => true))
               (fun _ _ => Helpers.Node Helpers.A_list [("alice", Helpers.Node Helpers.A_read [])])
               (fun k _ => match k with
                           | O => Some (["neuro/alice/img"], None)
                           | _ => Some ([], None)
                           end) in
  let req := mkRequest "GET" (mkURL (Some "https://registry.example") "/v2/_catalog" [("foo", "x")]) in
  CATALOG_PAGE_VALIDATOR (url_query (request_url req)) = Some (mkCatalogPage 100 "") /\
  handle_catalog 10 cfg env req = Some (Ok (mkCatalogResponse ["alice/img"] None)).
Proof. intros cfg env req. vm_compute. split; reflexivity. Qed.

Lemma filter_from_sound (i j : nat) (prefix image : string) (tree : Helpers.node)
    (images : list string) :
  In (j, image) (filter_from i prefix tree images) ->
  In (prefix +:+ image) images /\ Helpers.check_image_catalog_permission image tree = true.
Proof.
  revert i. induction images as [|x images IH]; intros i; simpl; [done|].
  destruct (strip_prefix prefix x) as [x'|] eqn:Hs.
  - apply strip_prefix_Some in Hs. subst x.
    destruct (Helpers.check_image_catalog_permission x' tree) eqn:Hc.
    + intros [H|H].
      * inversion H; subst. by split; [left|].
      * destruct (IH _ H). by split; [right|].
    + intros H. destruct (IH _ H). by split; [right|].
  - intros H. destruct (IH _ H). by split; [right|].
Qed.

Section LoopInvariant.
Variable good : string -> Prop.
Variable n : Z.

Lemma append_images_inv (len_images : nat) (pu : option URL) (items : list (nat * string))
    (st : LoopState) :
  (forall j image, In (j, image) items -> good image) ->
  (Z.of_nat (length (filtered st)) < n)%Z ->
  (forall image, In image (filtered st) -> good image) ->
  loop_inv good n (append_images n len_images pu items st).
Proof.
  revert st. induction items as [|[j image] items IH]; intros st Hitems Hlen Hgood; simpl.
  - split; [lia | done].
  - assert (Hfl : forall x, In x (filtered st ++ [image])%list -> good x).
    { intros x Hx. apply in_app_or in Hx as [Hx|[<-|[]]]; [by apply Hgood|].
      apply (Hitems j). by left. }
    rewrite length_app. cbn [length].
    destruct (Z.eqb (Z.of_nat (length (filtered st) + 1)) n) eqn:E.
    + apply Z.eqb_eq in E.
      destruct (Nat.eqb j len_images); (split; [simpl; rewrite length_app; simpl; lia | exact Hfl]).
    + apply Z.eqb_neq in E. apply IH.
      * intros j' image' H. apply (Hitems j'). by right.
      * simpl. rewrite length_app. simpl. lia.
      * exact Hfl.
Qed.

End LoopInvariant.

Lemma catalog_loop_inv (fuel : nat) (fetch : Fetch) (n m : Z) (tree : Helpers.node)
    (prefix : string) (k : nat) (pu : option URL) (st : LoopState) (k' : nat) (st' : LoopState) :
  catalog_loop fuel fetch n m tree prefix k pu st = Some (Some (k', st')) ->
  loop_inv (listed_and_allowed fetch prefix tree) n st ->
  loop_inv (listed_and_allowed fetch prefix tree) n st'.
Proof.
  revert k pu st. induction fuel as [|fuel IH]; intros k pu st; simpl; [done|].
  destruct pu as [pu|]; [|intros H; by inversion H].
  destruct (url_truthy pu && Z.ltb (Z.of_nat (length (filtered st))) n) eqn:G;
    [|intros H; by inversion H].
  apply andb_true_iff in G as [_ G]. apply Z.ltb_lt in G.
  match goal with |- context [fetch k ?u] => set (pu' := u) end.
  destruct (fetch k pu') as [[images next]|] eqn:F; [|done].
  intros H [_ Hgood]. destruct images as [|x xs].
  - inversion H; subst. split; [simpl; lia | exact Hgood].
  - apply (IH _ _ _ H). apply append_images_inv; [| exact G | exact Hgood].
    intros j image Hin. apply filter_from_sound in Hin as [Hin Hc].
    split; [|exact Hc]. exists k, pu', (x :: xs), next. by split.
Qed.

(** C6: whenever the catalog handler answers, the page size [n] was
    parsed from the request, the body lists at most [n] repositories, and
    each of them is a name some upstream answer listed under
    [project/[upstream_repo/]], stripped of that prefix, for which
    [check_image_catalog_permission] holds in the caller's permission
    tree. *)
Theorem handle_catalog_page_sound (fuel : nat) (cfg : Config) (env : CatalogEnv)
    (req : Request) (resp : CatalogResponse) :
  handle_catalog fuel cfg env req = Some (Ok resp) ->
  exists page user,
    CATALOG_PAGE_VALIDATOR (url_query (request_url req)) = Some page /\
    authorized_userid (cat_security env) = Some user /\
    (Z.of_nat (length (repositories resp)) <= number page)%Z /\
    forall image, In image (repositories resp) ->
      (exists k u images next,
         get_next_catalog_items env k u = Some (images, next) /\
         In (catalog_prefix (project (upstream_registry cfg)) (repo (upstream_registry cfg)) +:+ image)
            images) /\
      Helpers.check_image_catalog_permission image
        (get_permissions_tree env user ("image://" +:+ cluster_name cfg)) = true.
Proof.
  unfold handle_catalog.
  destruct (CATALOG_PAGE_VALIDATOR (url_query (request_url req))) as [page|] eqn:Hv; [|done].
  unfold get_user_from_request, check_authorized.
  destruct (authorized_userid (cat_security env)) as [user|] eqn:Hu; [|done].
  cbn [create_url_factory upstream_project upstream_repo].
  set (tree := get_permissions_tree env user _).
  set (prefix := catalog_prefix _ _).
  destruct (catalog_loop _ _ _ _ _ _ _ _ _) as [[[k st]|]|] eqn:Hl; [|done|done].
  assert (Hinv : loop_inv (listed_and_allowed (get_next_catalog_items env) prefix tree)
                   (number page) st).
  { apply (catalog_loop_inv _ _ _ _ _ _ _ _ _ _ _ Hl).
    pose proof (validator_positive _ _ Hv). split; [simpl; lia | done]. }
  destruct Hinv as [Hlen Hgood].
  intros H. exists page, user. split; [done|]. split; [done|].
  destruct (if more_images st && negb (last_token_is_correct st) then _ else _);
    [|done].
  inversion H; subst. cbn [repositories]. split; [exact Hlen|].
  intros image Hin. exact (Hgood image Hin).
Qed.

Lemma handle_catalog_page_sound_witness :
  let cfg := mkConfig "default" "Docker Registry"
               (mkUpstreamRegistryConfig (mkURL (Some "https://upstream.example") "" []) "neuro" None 2) in
  let env := mkCatalogEnv (mkSecurity (Some "alice") (fun _ _ => true))
               (fun _ _ => Helpers.Node Helpers.A_list [("alice", Helpers.Node Helpers.A_read [])])
               (fun k _ => match k with
                           | O => Some (["neuro/alice/a"; "neuro/bob/b"; "neuro/alice/c"],
                                        Some (mkURL None "/v2/_catalog" [("last", "neuro/alice/c")]))
                           | 1 => Some (["neuro/alice/d"; "neuro/alice/e"], None)
                           | _ => Some ([], None)
                           end) in
  let req := mkRequest "GET" (mkURL (Some "https://registry.example") "/v2/_catalog" [("n", "2")]) in
  let resp := mkCatalogResponse ["alice/a"; "alice/c"]
                (Some (mkURL (Some "https://registry.example") "/v2/_catalog"
                         [("n", "2"); ("last", "neuro/alice/c")])) in
  handle_catalog 10 cfg env req = Some (Ok resp) /\
  exists page user,
    CATALOG_PAGE_VALIDATOR (url_query (request_url req)) = Some page /\
    authorized_userid (cat_security env) = Some user /\
    (Z.of_nat (length (repositories resp)) <= number page)%Z /\
    forall image, In image (repositories resp) ->
      (exists k u images next,
         get_next_catalog_items env k u = Some (images, next) /\
         In (catalog_prefix (project (upstream_registry cfg)) (repo (upstream_registry cfg)) +:+ image)
            images) /\
      Helpers.check_image_catalog_permission image
        (get_permissions_tree env user ("image://" +:+ cluster_name cfg)) = true.
Proof.
  intros cfg env req resp. split; [vm_compute; reflexivity|].
  apply (handle_catalog_page_sound 10 cfg env req resp). vm_compute. reflexivity.
Defined.

End CatalogFacts.

(* ------------------------------------------------------------------ *)
(** ** ECR responses (C8) *)

Module ECRFacts.
Import Handler ECR.

Lemma filter_all_true {A} (p : A -> bool) (l : list A) :
  (forall x, In x l -> p x = true) -> List.filter p l = l.
Proof.
  induction l as [|x l IH]; intros H; simpl; [done|].
  rewrite (H x (or_introl eq_refl)), IH; [done|]. intros y Hy. apply H. by right.
Qed.

Lemma filter_filter_andb {A} (p q : A -> bool) (l : list A) :
  List.filter p (List.filter q l) = List.filter (fun x => q x && p x) l.
Proof.
  induction l as [|x l IH]; simpl; [done|].
  destruct (q x); simpl; [destruct (p x); simpl; by rewrite IH | done].
Qed.

Lemma filter_ext_eq {A} (p q : A -> bool) (l : list A) :
  (forall x, p x = q x) -> List.filter p l = List.filter q l.
Proof. intros H. induction l as [|x l IH]; simpl; [done|]. by rewrite H, IH. Qed.

Lemma dict_pop_nodup (k : string) (d : list (string * json)) :
  NoDup (map fst d) -> dict_pop k d = (dict_get k d, List.filter (drop_key k) d).
Proof.
  induction d as [|[k' v] d IH]; intros Hnd; simpl; [done|].
  inversion Hnd as [|? ? Hnin Hnd']; subst.
  unfold drop_key at 1. cbn [fst].
  destruct (String.eqb k' k) eqn:E; simpl.
  - apply String.eqb_eq in E. subst. f_equal. symmetry. apply filter_all_true.
    intros [k'' v''] Hin. unfold drop_key. simpl. apply negb_true_iff, String.eqb_neq.
    intros ->. apply Hnin, list_elem_of_In. apply (in_map fst _ _ Hin).
  - by rewrite (IH Hnd').
Qed.

Lemma nodup_filter (p : string * json -> bool) (d : list (string * json)) :
  NoDup (map fst d) -> NoDup (map fst (List.filter p d)).
Proof.
  induction d as [|[k v] d IH]; intros Hnd; simpl; [done|].
  inversion Hnd as [|? ? Hnin Hnd']; subst.
  destruct (p (k, v)); simpl; [|by apply IH].
  constructor; [|by apply IH].
  intros Hin%list_elem_of_In. apply Hnin, list_elem_of_In. apply in_map_iff in Hin as ([k' v'] & Hk & Hin). simpl in Hk. subst.
  apply filter_In in Hin as [Hin _]. apply (in_map fst _ _ Hin).
Qed.

Lemma dict_get_drop (k k' : string) (d : list (string * json)) :
  k <> k' -> dict_get k (List.filter (drop_key k') d) = dict_get k d.
Proof.
  intros Hne. induction d as [|[k'' v] d IH]; simpl; [done|].
  unfold drop_key at 1. simpl.
  destruct (String.eqb k'' k') eqn:E; simpl.
  - apply String.eqb_eq in E. subst. rewrite IH.
    destruct (String.eqb k' k) eqn:E2; [|done]. apply String.eqb_eq in E2. congruence.
  - by rewrite IH.
Qed.

Lemma convert_prefix (d md : list (string * json)) (failures : list json) :
  NoDup (map fst d) ->
  dict_get "ResponseMetadata" d = Some (JObj md) ->
  dict_get "HTTPStatusCode" md = Some (JInt 200) ->
  default (JList []) (dict_get "failures" d) = JList failures ->
  convert_upstream_response d =
  (len_failures ← py_len (JList failures);
   sc ← (if Nat.eqb len_failures 0
         then Ok (202%Z, List.filter (drop_key "failures") (List.filter (drop_key "ResponseMetadata") d))
         else
          failure ← index0 (JList failures);
          code ← getitem failure "failureCode";
          if json_is_str "ImageNotFound" code then
            reason ← getitem failure "failureReason";
            Ok (404%Z, error_body (JStr "NAME_INVALID") (JStr "Invalid image name") reason)
          else
            code' ← getitem failure "failureCode";
            if json_is_str "RepositoryNotFound" code' then
              reason ← getitem failure "failureReason";
              Ok (404%Z, error_body (JStr "NAME_UNKNOWN")
                           (JStr "Repository name not known to registry") reason)
            else
              message ← getitem failure "failureCode";
              reason ← getitem failure "failureReason";
              Ok (500%Z, error_body (JInt 0) message reason));
   let '(status, content) := sc in
   let content := (dict_pop "failures" content).2 in
   let content := (dict_pop "ResponseMetadata" content).2 in
   let content := (dict_pop "repository" content).2 in
   Ok (status, content)).
Proof.
  intros Hnd Hmd Hst Hf.
  pose proof (nodup_filter (drop_key "ResponseMetadata") d Hnd) as Hnd1.
  unfold convert_upstream_response.
  rewrite (dict_pop_nodup _ _ Hnd), Hmd.
  rewrite (dict_pop_nodup "failures" _ Hnd1), dict_get_drop by discriminate.
  rewrite Hf. unfold mbind at 1 2, result_bind at 1 2, of_option, getitem at 1.
  rewrite Hst. reflexivity.
Qed.

Lemma without_three (d : list (string * json)) :
  NoDup (map fst d) ->
  (dict_pop "repository"
     (dict_pop "ResponseMetadata"
        (dict_pop "failures"
           (List.filter (drop_key "failures") (List.filter (drop_key "ResponseMetadata") d))).2).2).2
  = without_keys ["failures"; "ResponseMetadata"; "repository"] d.
Proof.
  intros Hnd.
  rewrite (dict_pop_nodup "failures") by (by do 2 apply nodup_filter). cbn [snd].
  rewrite (dict_pop_nodup "ResponseMetadata") by (by do 3 apply nodup_filter). cbn [snd].
  rewrite (dict_pop_nodup "repository") by (by do 4 apply nodup_filter). cbn [snd].
  rewrite !filter_filter_andb. unfold without_keys. apply filter_ext_eq.
  intros [k v]. unfold drop_key. cbn [fst existsb].
  destruct (String.eqb k "failures"), (String.eqb k "ResponseMetadata"), (String.eqb k "repository");
    reflexivity.
Qed.

(** C8: for an ECR response with [ResponseMetadata.HTTPStatusCode] 200
    (and its keys distinct, as in any JSON object), [convert_upstream_response]
    answers 202 with the payload without its [failures], [ResponseMetadata]
    and [repository] keys when there is no failure; otherwise, for the first
    failure: [ImageNotFound] gives 404 with the single error [NAME_INVALID],
    [RepositoryNotFound] 404 with the single error [NAME_UNKNOWN], and any
    other [failureCode] 500 with the single error of code 0 whose message is
    the [failureCode]; the [detail] is the [failureReason]. *)
Theorem convert_upstream_response_cases (d md : list (string * json)) (failures : list json) :
  NoDup (map fst d) ->
  dict_get "ResponseMetadata" d = Some (JObj md) ->
  dict_get "HTTPStatusCode" md = Some (JInt 200) ->
  default (JList []) (dict_get "failures" d) = JList failures ->
  (failures = [] ->
   convert_upstream_response d
   = Ok (202%Z, without_keys ["failures"; "ResponseMetadata"; "repository"] d)) /\
  (forall f rest reason, failures = JObj f :: rest -> dict_get "failureReason" f = Some reason ->
   (dict_get "failureCode" f = Some (JStr "ImageNotFound") ->
    convert_upstream_response d =
    Ok (404%Z, [("errors", JList [JObj [("code", JStr "NAME_INVALID");
                                         ("message", JStr "Invalid image name");
                                         ("detail", reason)]])])) /\
   (dict_get "failureCode" f = Some (JStr "RepositoryNotFound") ->
    convert_upstream_response d =
    Ok (404%Z, [("errors", JList [JObj [("code", JStr "NAME_UNKNOWN");
                                         ("message", JStr "Repository name not known to registry");
                                         ("detail", reason)]])])) /\
   (forall code, dict_get "failureCode" f = Some code ->
    code <> JStr "ImageNotFound" -> code <> JStr "RepositoryNotFound" ->
    convert_upstream_response d =
    Ok (500%Z, [("errors", JList [JObj [("code", JInt 0); ("message", code);
                                         ("detail", reason)]])]))).
Proof.
  intros Hnd Hmd Hst Hf. rewrite (convert_prefix d md failures Hnd Hmd Hst Hf).
  split.
  - intros ->. cbn -[List.filter dict_pop]. f_equal. f_equal. by apply without_three.
  - intros f rest reason -> Hr. split; [|split].
    + intros Hc. cbn -[dict_pop]. rewrite Hc. cbn -[dict_pop]. rewrite Hr. reflexivity.
    + intros Hc. cbn -[dict_pop]. rewrite Hc. cbn -[dict_pop]. rewrite Hr. reflexivity.
    + intros code Hc H1 H2. cbn -[dict_pop json_is_str]. rewrite Hc. cbn -[dict_pop json_is_str].
      assert (json_is_str "ImageNotFound" code = false) as ->.
      { destruct code as [| | |s'| |]; try done. simpl.
        destruct (String.eqb s' "ImageNotFound") eqn:E; [|done].
        apply String.eqb_eq in E. congruence. }
      assert (json_is_str "RepositoryNotFound" code = false) as ->.
      { destruct code as [| | |s'| |]; try done. simpl.
        destruct (String.eqb s' "RepositoryNotFound") eqn:E; [|done].
        apply String.eqb_eq in E. congruence. }
      cbn -[dict_pop]. rewrite Hr. reflexivity.
Qed.

Lemma convert_upstream_response_cases_witness :
  let d := [("ResponseMetadata", JObj [("HTTPStatusCode", JInt 200)]);
            ("failures", JList [JObj [("failureCode", JStr "ImageNotFound");
                                      ("failureReason", JStr "Requested image not found")]]);
            ("repository", JStr "neuro/img")] in
  NoDup (map fst d) /\
  convert_upstream_response d =
  Ok (404%Z, [("errors", JList [JObj [("code", JStr "NAME_INVALID");
                                       ("message", JStr "Invalid image name");
                                       ("detail", JStr "Requested image not found")]])]).
Proof.
  intros d.
  assert (Hnd : NoDup (map fst d)) by (apply (bool_decide_unpack _); vm_compute; reflexivity).
  split; [exact Hnd|].
  apply (proj1 (proj2 (convert_upstream_response_cases d [("HTTPStatusCode", JInt 200)]
                  [JObj [("failureCode", JStr "ImageNotFound");
                         ("failureReason", JStr "Requested image not found")]]
                  Hnd eq_refl eq_refl eq_refl)
                  _ [] (JStr "Requested image not found") eq_refl eq_refl)).
  reflexivity.
Defined.

End ECRFacts.

(** ** C9: [OAuthToken.create_from_payload] *)

Module OAuthFacts.
Import OAuth.

Lemma truthy_some (s : string) : truthy (Some s) = true <-> s <> "".
Proof.
  cbn [truthy]. destruct (String.eqb s "") eqn:E; cbn [negb].
  - apply String.eqb_eq in E. split; [done|]. intros H. by exfalso.
  - apply String.eqb_neq in E. tauto.
Qed.

Lemma parse_access_token_some (p : Payload) (t : string) :
  _parse_access_token p = Some t ->
  truthy (token p) = true \/ truthy (p_access_token p) = true.
Proof.
  unfold _parse_access_token. cbv zeta.
  destruct (truthy (token p)) eqn:Ht; [by left|].
  destruct (truthy (p_access_token p)) eqn:Ha; [by right|done].
Qed.

(** C9 (amended): when [create_from_payload] returns a token (it raises
    [ValueError] exactly when neither [token] nor [access_token] is a
    non-empty string), its [expires_at] is the float sum
    [issued_at + expires_in * 0.75], with [expires_in] defaulting to 60 and
    [issued_at] the timestamp of the payload's [issued_at] when that is a
    non-empty string, else the current time. *)
Theorem create_from_payload_expires_at (p : Payload) (now : float)
    (timestamp : string -> float) (tok : OAuthToken) :
  create_from_payload p now timestamp = Some tok ->
  expires_at tok =
    ((match issued_at p with
      | Some s => if String.eqb s "" then now else timestamp s
      | None => now end)
     + (match p_expires_in p with Some e => e | None => 60 end) * 0.75)%float /\
  (truthy (token p) = true \/ truthy (p_access_token p) = true).
Proof.
  unfold create_from_payload.
  destruct (_parse_access_token p) as [t|] eqn:Ha; [|done].
  intros [= <-]. cbn [expires_at]. split.
  - unfold _parse_expires_at.
    destruct (issued_at p) as [s|]; [|reflexivity]. cbn [truthy].
    by destruct (String.eqb s "").
  - apply (parse_access_token_some p t Ha).
Qed.

Lemma create_from_payload_expires_at_witness :
  let p := mkPayload None (Some "tok") (Some 300%float) (Some "2021-10-01T00:00:00Z") in
  let ts := fun _ : string => 1633046400%float in
  create_from_payload p 0%float ts = Some (mkOAuthToken "tok" 1633046625%float) /\
  expires_at (mkOAuthToken "tok" 1633046625%float) = (1633046400 + 300 * 0.75)%float /\
  (truthy (token p) = true \/ truthy (p_access_token p) = true).
Proof.
  intros p ts.
  assert (H : create_from_payload p 0%float ts = Some (mkOAuthToken "tok" 1633046625%float))
    by (vm_compute; reflexivity).
  split; [exact H|].
  exact (create_from_payload_expires_at p 0%float ts _ H).
Defined.

(** A clock value just below 2^30 s (early 2004): 1073741823.9 rounded to
    binary64. With the default [expires_in] the token is valid for 45 s,
    yet [expires_at - issued_at] computes to 45.00000011920929, since the
    sum crosses a power of two and is rounded. *)
Lemma create_from_payload_ratio_cex :
  let p := mkPayload (Some "tok") None None None in
  let now := 0x1.ffffffff33333p+29%float in
  exists tok, create_from_payload p now (fun _ => 0%float) = Some tok /\
    (expires_at tok - now)%float <> (60 * 0.75)%float.
Proof.
  intros p now.
  eexists. split; [vm_compute; reflexivity|].
  intros H. apply (f_equal (fun x => PrimFloat.eqb x (60 * 0.75)%float)) in H.
  vm_compute in H. discriminate.
Qed.

End OAuthFacts.

(** ** C10: [ExpiringCache] *)

Module CacheFacts.
Import Cache.

Section Facts.
Context {T : Type}.

Lemma run_lookup (c : ExpiringCache T) (k : option string) (ops : list (@Op T)) :
  forallb (no_put_on k) ops = true ->
  run c ops !! k = c !! k.
Proof.
  revert c. induction ops as [|op ops IH]; intros c Hops; [reflexivity|].
  cbn [forallb] in Hops. apply andb_prop in Hops as [Hop Hops].
  unfold run. cbn [fold_left]. fold (run (step c op) ops).
  rewrite (IH _ Hops). destruct op as [k' now'|k' v' e']; [reflexivity|].
  cbn [step no_put_on] in *. unfold put.
  apply negb_true_iff, bool_decide_eq_false in Hop.
  unfold ExpiringCache in *. by rewrite lookup_insert_ne.
Qed.

(** C10: after [put(k, v, e)] on any cache, followed by any calls none of
    which is a [put] for [k], [get(k)] with clock value [now] returns [v]
    when [now < e] and [None] otherwise; so it returns [Some v] exactly
    when [now < e]. Any key, the [None] key included, any value and any
    expiry time. *)
Theorem get_after_put (c : ExpiringCache T) (k : option string) (v : T) (e : float)
    (ops : list (@Op T)) (now : float) :
  forallb (no_put_on k) ops = true ->
  get (run (put c k v e) ops) k now = (if PrimFloat.ltb now e then Some v else None) /\
  (get (run (put c k v e) ops) k now = Some v <-> PrimFloat.ltb now e = true).
Proof.
  intros Hops.
  assert (Hg : get (run (put c k v e) ops) k now = if PrimFloat.ltb now e then Some v else None).
  { unfold get. rewrite (run_lookup _ _ _ Hops). unfold put, ExpiringCache in *.
    by rewrite lookup_insert_eq. }
  split; [exact Hg|]. rewrite Hg.
  destruct (PrimFloat.ltb now e); split; congruence.
Qed.

End Facts.

Lemma get_after_put_witness :
  let ops := [Get (Some "a") 5%float; Put (Some "b") "y" 1%float; Put None "z" 9%float] in
  forallb (no_put_on (Some "a")) ops = true /\
  get (run (put ∅ (Some "a") "x" 10%float) ops) (Some "a") 5%float = Some "x".
Proof.
  intros ops.
  assert (H : forallb (no_put_on (Some "a")) ops = true) by (vm_compute; reflexivity).
  split; [exact H|].
  exact (proj1 (get_after_put ∅ (Some "a") "x" 10%float ops 5%float H)).
Defined.

End CacheFacts.

(** ** [config.py]: the upstream registry configuration *)

Module EnvConfigFacts.
Import Handler EnvConfig.

(** Every successful run, spelled out. *)
Lemma create_upstream_registry_inv (env : gmap string string) (c : UpstreamRegistryConfig) :
  create_upstream_registry env = Ok c ->
  exists u p m t,
    env !! "NP_REGISTRY_UPSTREAM_URL" = Some u /\
    env !! "NP_REGISTRY_UPSTREAM_PROJECT" = Some p /\
    (match env !! "NP_REGISTRY_UPSTREAM_MAX_CATALOG_ENTRIES" with
     | Some v => Catalog.py_int v = Some m
     | None => m = 1000%Z end) /\
    UpstreamType_of_value (default "oauth" (env !! "NP_REGISTRY_UPSTREAM_TYPE")) = Ok t /\
    exists oauth,
      (if UpstreamType_eqb t OAUTH then
         exists tu ts tn tp,
           env !! "NP_REGISTRY_UPSTREAM_TOKEN_URL" = Some tu /\
           env !! "NP_REGISTRY_UPSTREAM_TOKEN_SERVICE" = Some ts /\
           env !! "NP_REGISTRY_UPSTREAM_TOKEN_USERNAME" = Some tn /\
           env !! "NP_REGISTRY_UPSTREAM_TOKEN_PASSWORD" = Some tp /\
           oauth = Some (tu, ts, tn, tp)
       else oauth = None) /\
      c = make_config u p m t
            (if UpstreamType_eqb t OAUTH then env !! "NP_REGISTRY_UPSTREAM_REPO" else None)
            oauth
            (if UpstreamType_eqb t OAUTH then env !! "NP_REGISTRY_UPSTREAM_TOKEN_REGISTRY_SCOPE" else None)
            (if UpstreamType_eqb t OAUTH then env !! "NP_REGISTRY_UPSTREAM_TOKEN_REPO_SCOPE_ACTIONS" else None)
            (if UpstreamType_eqb t BASIC then env !! "NP_REGISTRY_UPSTREAM_BASIC_USERNAME" else None)
            (if UpstreamType_eqb t BASIC then env !! "NP_REGISTRY_UPSTREAM_BASIC_PASSWORD" else None).
Proof.
  unfold create_upstream_registry, env_item, of_option, mbind, result_bind.
  destruct (env !! "NP_REGISTRY_UPSTREAM_URL") as [u|]; [|done].
  destruct (env !! "NP_REGISTRY_UPSTREAM_PROJECT") as [p|]; [|done].
  destruct (env !! "NP_REGISTRY_UPSTREAM_MAX_CATALOG_ENTRIES") as [v|].
  all: try (destruct (Catalog.py_int v) as [m|] eqn:Hm; [|done]).
  all: destruct (UpstreamType_of_value _) as [t|] eqn:Ht; [|done].
  all: destruct t; cbn [UpstreamType_eqb].
  all: try (intros [= <-]; do 4 eexists; (split; [reflexivity|]); (split; [reflexivity|]);
            (split; [first [exact Hm | reflexivity]|]); (split; [reflexivity|]);
            exists None; split; reflexivity).
  all: destruct (env !! "NP_REGISTRY_UPSTREAM_TOKEN_URL") as [tu|]; [|done].
  all: destruct (env !! "NP_REGISTRY_UPSTREAM_TOKEN_SERVICE") as [ts|]; [|done].
  all: destruct (env !! "NP_REGISTRY_UPSTREAM_TOKEN_USERNAME") as [tn|]; [|done].
  all: destruct (env !! "NP_REGISTRY_UPSTREAM_TOKEN_PASSWORD") as [tp|]; [|done].
  all: intros [= <-]; do 4 eexists; (split; [reflexivity|]); (split; [reflexivity|]);
       (split; [first [exact Hm | reflexivity]|]); (split; [reflexivity|]).
  all: exists (Some (tu, ts, tn, tp)); split; [by do 4 eexists | reflexivity].
Qed.


(** The fields read from the environment: the endpoint and the project
    are required, [max_catalog_entries] is [int()] of its variable and
    1000 without it, the type is [oauth] without its variable, and the
    socket timeouts are always 30 s. *)
Theorem create_upstream_registry_fields (env : gmap string string) (c : UpstreamRegistryConfig) :
  create_upstream_registry env = Ok c ->
  env !! "NP_REGISTRY_UPSTREAM_URL" = Some (endpoint_url c) /\
  env !! "NP_REGISTRY_UPSTREAM_PROJECT" = Some (project c) /\
  (env !! "NP_REGISTRY_UPSTREAM_MAX_CATALOG_ENTRIES" = None -> max_catalog_entries c = 1000%Z) /\
  (forall v, env !! "NP_REGISTRY_UPSTREAM_MAX_CATALOG_ENTRIES" = Some v ->
     Catalog.py_int v = Some (max_catalog_entries c)) /\
  (env !! "NP_REGISTRY_UPSTREAM_TYPE" = None -> type c = OAUTH) /\
  sock_connect_timeout_s c = Some 30%float /\ sock_read_timeout_s c = Some 30%float.
Proof.
  intros H. destruct (create_upstream_registry_inv env c H)
    as (u & p & m & t & Hu & Hp & Hm & Ht & oauth & _ & ->).
  assert (Hc : forall r o cs ra bu bp, exists tu ts tn tp,
             make_config u p m t r o cs ra bu bp =
             mkUpstreamRegistryConfig u p (default "" r) t (default "" bu) (default "" bp)
               tu ts tn tp (default "registry:catalog:*" cs) (default "*" ra)
               (Some 30%float) (Some 30%float) m).
  { intros r o cs ra bu bp. unfold make_config.
    destruct (default _ o) as [[[tu ts] tn] tp]. by do 4 eexists. }
  edestruct Hc as (tu & ts & tn & tp & ->). cbn.
  split; [done|]. split; [done|].
  split; [intros Hn; by rewrite Hn in Hm|].
  split; [intros v Hv; by rewrite Hv in Hm|].
  split; [|done].
  intros Hn. rewrite Hn in Ht. by injection Ht.
Qed.

(** Only an [oauth] upstream reads [NP_REGISTRY_UPSTREAM_REPO], the token
    endpoint and the scope settings; only a [basic] one reads the basic
    credentials. Any other type keeps the defaults, whatever the
    environment says. *)
Theorem create_upstream_registry_type_fields (env : gmap string string) (c : UpstreamRegistryConfig) :
  create_upstream_registry env = Ok c ->
  (type c <> OAUTH ->
     repo c = "" /\ token_endpoint_url c = "" /\ token_service c = "" /\
     token_endpoint_username c = "" /\ token_endpoint_password c = "" /\
     token_registry_catalog_scope c = "registry:catalog:*" /\
     token_repository_scope_actions c = "*") /\
  (type c = OAUTH ->
     repo c = default "" (env !! "NP_REGISTRY_UPSTREAM_REPO") /\
     env !! "NP_REGISTRY_UPSTREAM_TOKEN_URL" = Some (token_endpoint_url c) /\
     env !! "NP_REGISTRY_UPSTREAM_TOKEN_SERVICE" = Some (token_service c) /\
     token_registry_catalog_scope c =
       default "registry:catalog:*" (env !! "NP_REGISTRY_UPSTREAM_TOKEN_REGISTRY_SCOPE")) /\
  (type c <> BASIC -> basic_username c = "" /\ basic_password c = "") /\
  (type c = BASIC ->
     basic_username c = default "" (env !! "NP_REGISTRY_UPSTREAM_BASIC_USERNAME") /\
     basic_password c = default "" (env !! "NP_REGISTRY_UPSTREAM_BASIC_PASSWORD")).
Proof.
  intros H. destruct (create_upstream_registry_inv env c H)
    as (u & p & m & t & Hu & Hp & Hm & Ht & oauth & Ho & ->).
  destruct t; cbn [UpstreamType_eqb] in Ho |- *.
  - subst oauth. cbn. repeat split; done.
  - destruct Ho as (tu & ts & tn & tp & E1 & E2 & E3 & E4 & ->). cbn.
    split; [done|]. split; [intros _; repeat split; done|]. split; done.
  - subst oauth. cbn. repeat split; done.
Qed.


Lemma create_upstream_registry_fields_witness :
  let ecr_env : gmap string string :=
    list_to_map [("NP_REGISTRY_UPSTREAM_URL", "https://123.dkr.ecr.eu-west-1.amazonaws.com");
                 ("NP_REGISTRY_UPSTREAM_PROJECT", "neuro");
                 ("NP_REGISTRY_UPSTREAM_TYPE", "aws_ecr");
                 ("NP_REGISTRY_UPSTREAM_REPO", "gar-repo");
                 ("NP_REGISTRY_UPSTREAM_BASIC_USERNAME", "user")] in
  let ecr_config := make_config "https://123.dkr.ecr.eu-west-1.amazonaws.com" "neuro" 1000
                      AWS_ECR None None None None None None in
  create_upstream_registry ecr_env = Ok ecr_config /\
  max_catalog_entries ecr_config = 1000%Z /\ project ecr_config = "neuro".
Proof.
  intros ecr_env ecr_config.
  assert (H : create_upstream_registry ecr_env = Ok ecr_config) by (vm_compute; reflexivity).
  split; [exact H|].
  destruct (create_upstream_registry_fields ecr_env ecr_config H) as (_ & Hp & Hm & _ & _).
  split; [apply Hm; vm_compute; reflexivity|].
  vm_compute; reflexivity.
Defined.

Lemma create_upstream_registry_type_fields_witness :
  let ecr_env : gmap string string :=
    list_to_map [("NP_REGISTRY_UPSTREAM_URL", "https://123.dkr.ecr.eu-west-1.amazonaws.com");
                 ("NP_REGISTRY_UPSTREAM_PROJECT", "neuro");
                 ("NP_REGISTRY_UPSTREAM_TYPE", "aws_ecr");
                 ("NP_REGISTRY_UPSTREAM_REPO", "gar-repo");
                 ("NP_REGISTRY_UPSTREAM_BASIC_USERNAME", "user")] in
  let ecr_config := make_config "https://123.dkr.ecr.eu-west-1.amazonaws.com" "neuro" 1000
                      AWS_ECR None None None None None None in
  create_upstream_registry ecr_env = Ok ecr_config /\ repo ecr_config = "" /\
  basic_username ecr_config = "".
Proof.
  intros ecr_env ecr_config.
  assert (H : create_upstream_registry ecr_env = Ok ecr_config) by (vm_compute; reflexivity).
  split; [exact H|].
  destruct (create_upstream_registry_type_fields ecr_env ecr_config H) as (Ho & _ & Hb & _).
  split; [apply Ho; discriminate|apply Hb; discriminate].
Defined.

End EnvConfigFacts.

(** ** More of [V2Handler.handle] and [URLFactory] *)

Module HandlerExtraFacts.
Import Handler.



Lemma with_origin_names (r : RepoURL.t) (o : URL) :
  RepoURL.repo (RepoURL.with_origin r o) = RepoURL.repo r /\
  RepoURL.mounted_repo (RepoURL.with_origin r o) = RepoURL.mounted_repo r.
Proof. done. Qed.

(** The repo names of the upstream URL built for a registry URL: a
    passthrough URL keeps its repo and (empty) mounted repo; any other gets
    [project/[upstream_repo/]repo], and a cross-mount source [m] becomes
    [project/m]. *)
Theorem create_upstream_repo_url_names (f : URLFactory) (u : URL) (r : RepoURL.t) :
  RepoURL.from_url u = Some r ->
  exists r', create_upstream_repo_url f r = Some r' /\
    (RepoURL.allow_skip_perms r = true ->
       RepoURL.repo r' = RepoURL.repo r /\ RepoURL.mounted_repo r' = RepoURL.mounted_repo r) /\
    (RepoURL.allow_skip_perms r = false ->
       RepoURL.repo r' =
         upstream_project f +:+ "/" +:+
           (match upstream_repo f with
            | Some up => if RepoURL.nonempty up then up +:+ "/" else ""
            | None => "" end) +:+ RepoURL.repo r /\
       RepoURL.mounted_repo r' =
         (if RepoURL.nonempty (RepoURL.mounted_repo r)
          then upstream_project f +:+ "/" +:+ RepoURL.mounted_repo r else "")).
Proof.
  intros Hr. destruct (RoundTrip.from_url_inv u r Hr) as [Hu [s Hp]].
  unfold create_upstream_repo_url.
  destruct (RepoURL.allow_skip_perms r) eqn:Hs.
  - eexists. split; [reflexivity|]. split; [by intros _|done].
  - unfold RepoURL.with_project. rewrite Hu, Hp.
    destruct (RepoURL.nonempty (RepoURL.mounted_repo r));
      (eexists; split; [reflexivity|]; split; [done|]; intros _; done).
Qed.

Lemma create_upstream_repo_url_names_witness :
  let u := mkURL (Some "https://reg") "/v2/alice/img/blobs/uploads/" [("from", "bob/base")] in
  exists r, RepoURL.from_url u = Some r /\
  exists r', create_upstream_repo_url
               (mkURLFactory (mkURL (Some "https://reg") "" []) (mkURL (Some "https://up") "" [])
                  "neuro" (Some "gar")) r = Some r' /\
    RepoURL.repo r' = "neuro/gar/alice/img" /\ RepoURL.mounted_repo r' = "neuro/bob/base".
Proof.
  intros u. eexists. split; [vm_compute; reflexivity|].
  set (f := mkURLFactory _ _ _ _).
  destruct (create_upstream_repo_url_names f u (RepoURL.mk "alice/img" u "bob/base")
              ltac:(vm_compute; reflexivity)) as (r' & H1 & _ & H3).
  exists r'. split; [exact H1|].
  destruct (H3 ltac:(vm_compute; reflexivity)) as [-> ->]. split; reflexivity.
Defined.

End HandlerExtraFacts.

(** ** The catalog page parameters and [filter_images_1_indexed] *)

Module CatalogExtraFacts.
Import Handler Catalog.

Lemma digit_char (k : Z) :
  (0 <= k < 10)%Z ->
  digit_value (ascii_of_nat (48 + Z.to_nat k)) = Some k.
Proof.
  intros Hk. unfold digit_value.
  rewrite Ascii.nat_ascii_embedding by lia.
  replace (Nat.leb 48 (48 + Z.to_nat k) && Nat.leb (48 + Z.to_nat k) 57) with true.
  - f_equal. lia.
  - symmetry. apply andb_true_intro. split; apply Nat.leb_le; lia.
Qed.

Lemma digit_not_space (c : ascii) (d : Z) : digit_value c = Some d -> is_py_space c = false.
Proof.
  unfold digit_value, is_py_space.
  destruct (Nat.leb 48 (nat_of_ascii c) && Nat.leb (nat_of_ascii c) 57) eqn:E; [|done].
  intros _. apply andb_prop in E as [E1 E2]. apply Nat.leb_le in E1, E2.
  set (n := nat_of_ascii c) in *.
  destruct (Nat.leb_spec 9 n), (Nat.leb_spec n 13), (Nat.leb_spec 28 n), (Nat.leb_spec n 32);
    cbn; try reflexivity; lia.
Qed.

Lemma digit_not_sign (c : ascii) (d : Z) :
  digit_value c = Some d -> Ascii.eqb c "-" = false /\ Ascii.eqb c "+" = false.
Proof.
  intros H. split; destruct (Ascii.eqb c _) eqn:E; try done;
    apply Ascii.eqb_eq in E; subst; discriminate.
Qed.

Lemma pos_digits_spec (fuel : nat) (z : Z) (acc : string) :
  (0 <= z < 2 ^ Z.of_nat fuel)%Z -> (0 < fuel)%nat ->
  py_digits (pos_digits fuel z acc) 0 false = py_digits acc z true /\
  (Forall (fun c => is_Some (digit_value c)) (String.list_ascii_of_string acc) ->
   Forall (fun c => is_Some (digit_value c)) (String.list_ascii_of_string (pos_digits fuel z acc))) /\
  exists c r, pos_digits fuel z acc = String c r /\ is_Some (digit_value c).
Proof.
  revert z acc. induction fuel as [|fuel IH]; intros z acc Hz Hf; [lia|].
  cbn [pos_digits].
  assert (Hd : digit_value (ascii_of_nat (48 + Z.to_nat (z mod 10))) = Some (z mod 10)%Z)
    by (apply digit_char; apply Z.mod_pos_bound; lia).
  destruct (Z.ltb z 10) eqn:Hlt.
  - apply Z.ltb_lt in Hlt. cbn [py_digits]. rewrite Hd.
    rewrite Z.mod_small by lia. rewrite Z.mod_small in Hd by lia.
    split; [done|]. split.
    + intros Ha. cbn. constructor; [by eexists|exact Ha].
    + do 2 eexists. split; [reflexivity|]. by eexists.
  - apply Z.ltb_ge in Hlt.
    assert (Hf' : (0 < fuel)%nat).
    { destruct fuel; [|lia]. cbn in Hz. lia. }
    assert (Hz' : (0 <= z / 10 < 2 ^ Z.of_nat fuel)%Z).
    { split; [apply Z.div_pos; lia|].
      rewrite Nat2Z.inj_succ, Z.pow_succ_r in Hz by lia.
      apply Z.div_lt_upper_bound; lia. }
    destruct (IH (z / 10)%Z (String (ascii_of_nat (48 + Z.to_nat (z mod 10))) acc) Hz' Hf')
      as (H1 & H2 & H3).
    split; [|split; [|exact H3]].
    + rewrite H1. cbn [py_digits]. rewrite Hd. f_equal.
      pose proof (Z.div_mod z 10). lia.
    + intros Ha. apply H2. cbn. constructor; [by eexists|exact Ha].
Qed.

Lemma all_digits_lstrip (s : string) :
  Forall (fun c => is_Some (digit_value c)) (String.list_ascii_of_string s) -> lstrip s = s.
Proof.
  destruct s as [|c s]; [done|]. cbn. intros Hf.
  inversion Hf as [|? ? [d Hd] _]; subst. by rewrite (digit_not_space _ _ Hd).
Qed.

Lemma rev_str_involutive (s : string) : rev_str (rev_str s) = s.
Proof.
  unfold rev_str. rewrite String.list_ascii_of_string_of_list_ascii, rev_involutive.
  apply String.string_of_list_ascii_of_string.
Qed.

Lemma all_digits_rev (s : string) :
  Forall (fun c => is_Some (digit_value c)) (String.list_ascii_of_string s) ->
  Forall (fun c => is_Some (digit_value c)) (String.list_ascii_of_string (rev_str s)).
Proof.
  unfold rev_str. rewrite String.list_ascii_of_string_of_list_ascii.
  intros H. by apply Forall_rev.
Qed.

Lemma py_strip_digits (s : string) :
  Forall (fun c => is_Some (digit_value c)) (String.list_ascii_of_string s) -> py_strip s = s.
Proof.
  intros H. unfold py_strip. rewrite (all_digits_lstrip s H).
  rewrite (all_digits_lstrip _ (all_digits_rev s H)). apply rev_str_involutive.
Qed.

Lemma py_int_str (z : Z) : (0 < z)%Z -> py_int (py_str_int z) = Some z.
Proof.
  intros Hz. unfold py_str_int.
  replace (Z.ltb z 0) with false by (symmetry; apply Z.ltb_ge; lia).
  set (fuel := S (Z.to_nat (Z.log2 z))).
  assert (Hb : (0 <= z < 2 ^ Z.of_nat fuel)%Z).
  { subst fuel. rewrite Nat2Z.inj_succ, Z2Nat.id by (apply Z.log2_nonneg).
    pose proof (Z.log2_spec z Hz). lia. }
  destruct (pos_digits_spec fuel z "" Hb ltac:(lia)) as (H1 & H2 & c & r & H3 & [d Hd]).
  unfold py_int. rewrite py_strip_digits by (apply H2; constructor).
  rewrite H3. destruct (digit_not_sign c d Hd) as [-> ->].
  rewrite <- H3, H1. reflexivity.
Qed.

(** Validating the query [_prepare_catalog_request_params] builds for a
    page gives the page back, for every page size [n > 0] and every last
    token: [str] and [int] round-trip on positive numbers, and an empty
    last token is left out and read back as the default. *)
Theorem catalog_params_roundtrip (page : CatalogPage) :
  (0 < number page)%Z ->
  CATALOG_PAGE_VALIDATOR (prepare_catalog_request_params page) = Some page.
Proof.
  intros Hn. destruct page as [n l]. cbn [number] in Hn.
  unfold CATALOG_PAGE_VALIDATOR, prepare_catalog_request_params. cbn [number last_token].
  cbn [get_first String.eqb Ascii.eqb Bool.eqb andb].
  rewrite (py_int_str n Hn).
  replace (Z.ltb 0 n) with true by (symmetry; apply Z.ltb_lt; exact Hn).
  destruct (RepoURL.nonempty l) eqn:El.
  - cbn [get_first String.eqb Ascii.eqb Bool.eqb andb]. by rewrite El.
  - cbn [get_first]. unfold RepoURL.nonempty in El. apply negb_false_iff, String.eqb_eq in El.
    by subst l.
Qed.

Lemma catalog_params_roundtrip_witness :
  (0 < number (mkCatalogPage 2300 "alice/img"))%Z /\
  CATALOG_PAGE_VALIDATOR (prepare_catalog_request_params (mkCatalogPage 2300 "alice/img"))
  = Some (mkCatalogPage 2300 "alice/img").
Proof.
  assert (H : (0 < number (mkCatalogPage 2300 "alice/img"))%Z) by (cbn; lia).
  split; [exact H|]. exact (catalog_params_roundtrip _ H).
Defined.

Lemma app_inv_head_str (p a b : string) : p +:+ a = p +:+ b -> a = b.
Proof.
  intros H. apply (f_equal (strip_prefix p)) in H.
  rewrite !PyFacts.strip_prefix_app in H. by injection H.
Qed.

Lemma filter_from_In (i : nat) (prefix : string) (tree : Helpers.node) (imgs : list string)
    (j : nat) (x : string) :
  In (j, x) (filter_from i prefix tree imgs) <->
  (i <= j)%nat /\ nth_error imgs (j - i) = Some (prefix +:+ x) /\
  Helpers.check_image_catalog_permission x tree = true.
Proof.
  revert i. induction imgs as [|image rest IH]; intros i.
  - cbn. split; [done|]. intros (_ & H & _). by destruct (j - i)%nat.
  - cbn [filter_from].
    assert (Htail : In (j, x) (filter_from (S i) prefix tree rest) <->
                    (i < j)%nat /\ nth_error (image :: rest) (j - i) = Some (prefix +:+ x) /\
                    Helpers.check_image_catalog_permission x tree = true).
    { rewrite IH. split.
      - intros (H1 & H2 & H3). split; [lia|]. split; [|done].
        replace (j - i)%nat with (S (j - S i)) by lia. exact H2.
      - intros (H1 & H2 & H3). split; [lia|]. split; [|done].
        replace (j - i)%nat with (S (j - S i)) in H2 by lia. exact H2. }
    destruct (strip_prefix prefix image) as [image'|] eqn:Hs.
    + pose proof (PyFacts.strip_prefix_Some _ _ _ Hs) as ->.
      destruct (Helpers.check_image_catalog_permission image' tree) eqn:Hc.
      * cbn [In]. rewrite Htail. split.
        -- intros [[= <- <-]|H]; [|split; [lia|]; tauto].
           split; [lia|]. by rewrite Nat.sub_diag.
        -- intros (H1 & H2 & H3). destruct (Nat.eq_dec j i) as [->|Hne].
           ++ left. rewrite Nat.sub_diag in H2. cbn in H2. injection H2 as H2.
              f_equal. by apply (app_inv_head_str prefix).
           ++ right. split; [lia|]. tauto.
      * rewrite Htail. split; [intros (H1 & H2 & H3); split; [lia|]; tauto|].
        intros (H1 & H2 & H3). destruct (Nat.eq_dec j i) as [->|Hne].
        -- rewrite Nat.sub_diag in H2. cbn in H2. injection H2 as H2.
           apply app_inv_head_str in H2. subst. congruence.
        -- split; [lia|]. tauto.
    + rewrite Htail. split; [intros (H1 & H2 & H3); split; [lia|]; tauto|].
      intros (H1 & H2 & H3). destruct (Nat.eq_dec j i) as [->|Hne].
      * rewrite Nat.sub_diag in H2. cbn in H2. injection H2 as H2. subst image.
        by rewrite PyFacts.strip_prefix_app in Hs.
      * split; [lia|]. tauto.
Qed.

Lemma filter_from_sorted (i : nat) (prefix : string) (tree : Helpers.node) (imgs : list string) :
  StronglySorted Nat.lt (map fst (filter_from i prefix tree imgs)).
Proof.
  revert i. induction imgs as [|image rest IH]; intros i; cbn [filter_from]; [constructor|].
  destruct (strip_prefix prefix image) as [image'|];
    [destruct (Helpers.check_image_catalog_permission image' tree)|]; try apply IH.
  cbn [map fst]. constructor; [apply IH|].
  apply Forall_forall. intros j Hj. apply list_elem_of_In, in_map_iff in Hj as [[j' x] [<- Hin]].
  apply filter_from_In in Hin. cbn. lia.
Qed.

(** [filter_images_1_indexed] yields exactly the pairs [(i, name)] where
    the [i]-th (1-based) upstream name is [project/[upstream_repo/]name]
    and the permission tree allows [name], in increasing order of [i]:
    names outside the project prefix are skipped, never yielded. *)
Theorem filter_images_1_indexed_spec (imgs : list string) (tree : Helpers.node)
    (project_name : string) (upstream_repo : option string) :
  (forall i name, In (i, name) (filter_images_1_indexed imgs tree project_name upstream_repo) <->
     (1 <= i)%nat /\
     nth_error imgs (i - 1) = Some (catalog_prefix project_name upstream_repo +:+ name) /\
     Helpers.check_image_catalog_permission name tree = true) /\
  StronglySorted Nat.lt (map fst (filter_images_1_indexed imgs tree project_name upstream_repo)).
Proof.
  split; [intros i name; apply filter_from_In|apply filter_from_sorted].
Qed.

End CatalogExtraFacts.

(** ** [_fixup_repo_name] *)

Module FixupFacts.
Import ECR Fixup.

Lemma dict_has_keys (k : string) (d : list (string * json)) :
  dict_has k d = existsb (fun x => String.eqb x k) (map fst d).
Proof. unfold dict_has. induction d as [|[k' v'] d IH]; cbn; [done|]. by rewrite IH. Qed.

Lemma dict_set_keys (k : string) (v : json) (d : list (string * json)) :
  dict_has k d = true -> map fst (dict_set k v d) = map fst d.
Proof.
  induction d as [|[k' v'] d IH]; cbn; [done|].
  destruct (String.eqb k' k) eqn:E; cbn.
  - apply String.eqb_eq in E. by subst.
  - intros H. by rewrite IH.
Qed.

Lemma dict_has_set (k k' : string) (v : json) (d : list (string * json)) :
  dict_has k d = true -> dict_has k' (dict_set k v d) = dict_has k' d.
Proof. intros H. by rewrite !dict_has_keys, dict_set_keys. Qed.

Lemma dict_get_set_eq (k : string) (v : json) (d : list (string * json)) :
  dict_get k (dict_set k v d) = Some v.
Proof.
  induction d as [|[k' v'] d IH]; cbn; [by rewrite String.eqb_refl|].
  destruct (String.eqb k' k) eqn:E; cbn; [by rewrite String.eqb_refl|by rewrite E].
Qed.

Lemma dict_get_set_ne (k k' : string) (v : json) (d : list (string * json)) :
  k <> k' -> dict_get k' (dict_set k v d) = dict_get k' d.
Proof.
  intros Hne. induction d as [|[k0 v0] d IH]; cbn.
  - destruct (String.eqb k k') eqn:E; [apply String.eqb_eq in E; congruence|done].
  - destruct (String.eqb k0 k) eqn:E; cbn.
    + apply String.eqb_eq in E. subst k0.
      destruct (String.eqb k k') eqn:E'; [apply String.eqb_eq in E'; congruence|done].
    + by rewrite IH.
Qed.

Lemma dict_set_get (k : string) (v : json) (d : list (string * json)) :
  dict_get k d = Some v -> dict_set k v d = d.
Proof.
  induction d as [|[k' v'] d IH]; cbn; [done|].
  destruct (String.eqb k' k) eqn:E.
  - intros [= ->]. apply String.eqb_eq in E. by subst.
  - intros H. by rewrite IH.
Qed.

Lemma dict_has_get (k : string) (d : list (string * json)) :
  dict_has k d = true -> exists v, dict_get k d = Some v.
Proof.
  unfold dict_has. induction d as [|[k' v'] d IH]; cbn; [done|].
  destruct (String.eqb k' k); cbn; [by eexists|exact IH].
Qed.

Lemma dict_get_has (k : string) (v : json) (d : list (string * json)) :
  dict_get k d = Some v -> dict_has k d = true.
Proof.
  unfold dict_has. induction d as [|[k' v'] d IH]; cbn; [done|].
  destruct (String.eqb k' k); cbn; [done|exact IH].
Qed.

Lemma fix_detail_idem (repo : string) (d : json) :
  fix_detail repo (fix_detail repo d) = fix_detail repo d.
Proof.
  destruct d as [| | | | |g]; try reflexivity. cbn [fix_detail].
  destruct (dict_has "name" g) eqn:H; cbn [fix_detail]; rewrite ?H; [|done].
  rewrite dict_has_set, H by done. by rewrite dict_set_get by apply dict_get_set_eq.
Qed.

Lemma fix_error_idem (repo : string) (e : json) :
  fix_error repo (fix_error repo e) = fix_error repo e.
Proof.
  destruct e as [| | | | |g]; try reflexivity. cbn [fix_error].
  destruct (dict_has "detail" g) eqn:H; [|by cbn [fix_error]; rewrite H].
  destruct (dict_get "detail" g) as [d|] eqn:Hd; [|by cbn [fix_error]; rewrite H, Hd].
  cbn [fix_error]. rewrite dict_has_set, H by done. rewrite dict_get_set_eq.
  rewrite fix_detail_idem. by rewrite dict_set_get by apply dict_get_set_eq.
Qed.

(** [_fixup_repo_name] on an object: the keys stay, in order. *)
Lemma fixup_keys (f : list (string * json)) (repo : string) :
  exists f', _fixup_repo_name (JObj f) repo = JObj f' /\ map fst f' = map fst f /\
    (dict_has "name" f = true -> dict_get "name" f' = Some (JStr repo)) /\
    (forall errors, dict_get "errors" f = Some (JList errors) ->
       dict_get "errors" f' = Some (JList (map (fix_error repo) errors))).
Proof.
  cbn [_fixup_repo_name].
  set (f1 := if dict_has "errors" f then _ else f).
  assert (Hk1 : map fst f1 = map fst f /\
                (forall errors, dict_get "errors" f = Some (JList errors) ->
                   dict_get "errors" f1 = Some (JList (map (fix_error repo) errors)))).
  { subst f1. destruct (dict_has "errors" f) eqn:He.
    - destruct (dict_get "errors" f) as [[| | | |es|]|] eqn:Hg;
        try (split; [done|intros ? [=]]).
      split; [by apply dict_set_keys|]. intros ? [= <-]. apply dict_get_set_eq.
    - split; [done|]. intros errors Hg. apply dict_get_has in Hg. congruence. }
  destruct Hk1 as [Hk1 He1].
  assert (Hn : dict_has "name" f1 = dict_has "name" f) by (by rewrite !dict_has_keys, Hk1).
  eexists. split; [reflexivity|].
  destruct (dict_has "name" f1) eqn:Hn1.
  - split; [by rewrite dict_set_keys|]. split; [intros _; apply dict_get_set_eq|].
    intros errors Hg. rewrite dict_get_set_ne by done. by apply He1.
  - split; [done|]. split; [congruence|exact He1].
Qed.

Lemma fixup_idem (data : json) (repo : string) :
  _fixup_repo_name (_fixup_repo_name data repo) repo = _fixup_repo_name data repo.
Proof.
  destruct data as [| | | | |f]; try reflexivity.
  cbn [_fixup_repo_name].
  set (f1 := if dict_has "errors" f then _ else f).
  (* the second pass over [errors] *)
  assert (Hhas : dict_has "errors" f1 = dict_has "errors" f).
  { subst f1. destruct (dict_has "errors" f) eqn:He; [|done].
    destruct (dict_get "errors" f) as [[| | | |es|]|]; try done.
    by rewrite dict_has_set. }
  assert (Hstable : forall f2, map fst f2 = map fst f1 ->
            (forall k, k <> "name" -> dict_get k f2 = dict_get k f1) ->
            (if dict_has "errors" f2 then
               match dict_get "errors" f2 with
               | Some (JList errors) => dict_set "errors" (JList (map (fix_error repo) errors)) f2
               | _ => f2 end
             else f2) = f2).
  { intros f2 Hk Hg. rewrite !dict_has_keys, Hk, <- dict_has_keys, Hhas.
    destruct (dict_has "errors" f) eqn:He; [|done].
    rewrite (Hg "errors") by done. subst f1. try rewrite He.
    destruct (dict_get "errors" f) as [[| | | |es|]|] eqn:Hg0; try (try rewrite He; rewrite ?Hg0; done).
    rewrite dict_get_set_eq, map_map.
    rewrite (map_ext (fun x => fix_error repo (fix_error repo x)) (fix_error repo))
      by apply fix_error_idem.
    apply dict_set_get. rewrite (Hg "errors") by done. apply dict_get_set_eq. }
  destruct (dict_has "name" f1) eqn:Hn.
  - rewrite Hstable.
    + by rewrite dict_has_set, Hn, dict_set_get by (done || apply dict_get_set_eq).
    + by apply dict_set_keys.
    + intros k Hk. by apply dict_get_set_ne.
  - rewrite Hstable by done. by rewrite Hn.
Qed.

(** [_fixup_repo_name] never adds or removes a key and never reorders
    them; it sets [name] to the repo wherever an object has it (at the top
    and in the [detail] object of each error); it changes nothing that is
    not a JSON object; and applying it twice is applying it once. *)
Theorem fixup_repo_name_spec (data : json) (repo : string) :
  _fixup_repo_name (_fixup_repo_name data repo) repo = _fixup_repo_name data repo /\
  (forall f, data = JObj f -> exists f',
     _fixup_repo_name data repo = JObj f' /\ map fst f' = map fst f /\
     (dict_has "name" f = true -> dict_get "name" f' = Some (JStr repo)) /\
     (forall errors, dict_get "errors" f = Some (JList errors) ->
        exists errors', dict_get "errors" f' = Some (JList errors') /\
        Forall (fun e => forall g d, e = JObj g -> dict_get "detail" g = Some (JObj d) ->
                   dict_has "name" d = true -> dict_get "name" d = Some (JStr repo)) errors')) /\
  (match data with JObj _ => True | _ => _fixup_repo_name data repo = data end).
Proof.
  split; [apply fixup_idem|]. split; [|by destruct data].
  intros f ->. destruct (fixup_keys f repo) as (f' & H1 & H2 & H3 & H4).
  exists f'. split; [exact H1|]. split; [exact H2|]. split; [exact H3|].
  intros errors He. exists (map (fix_error repo) errors). split; [by apply H4|].
  apply Forall_forall. intros e He'. apply list_elem_of_In, in_map_iff in He' as [e0 [<- _]].
  intros g d Hg Hd Hn.
  destruct e0 as [| | | | |g0]; try discriminate. cbn [fix_error] in Hg.
  destruct (dict_has "detail" g0) eqn:Hh0; [|injection Hg as <-; apply dict_get_has in Hd; congruence].
  destruct (dict_get "detail" g0) as [d0|] eqn:Hd0; [|injection Hg as <-; congruence].
  injection Hg as <-. rewrite dict_get_set_eq in Hd. injection Hd as Hd.
  destruct d0 as [| | | | |g1]; try discriminate. cbn [fix_detail] in Hd.
  destruct (dict_has "name" g1) eqn:Hn1.
  - injection Hd as <-. apply dict_get_set_eq.
  - injection Hd as <-. congruence.
Qed.

End FixupFacts.

(** ** The upstream auth headers *)

Module AuthHeadersFacts.
Import Handler AuthHeaders.

Lemma get_put_eq {T : Type} (c : Cache.ExpiringCache T) (k : option string) (v : T)
    (e now : float) :
  Cache.get (Cache.put c k v e) k now = if PrimFloat.ltb now e then Some v else None.
Proof. unfold Cache.get, Cache.put, Cache.ExpiringCache in *. by rewrite lookup_insert_eq. Qed.

Lemma lookup_put_eq {T : Type} (c : Cache.ExpiringCache T) (k : option string) (v : T)
    (e : float) :
  Cache.put c k v e !! k = Some (v, e).
Proof. unfold Cache.put, Cache.ExpiringCache in *. by rewrite lookup_insert_eq. Qed.

Lemma get_some {T : Type} (c : Cache.ExpiringCache T) (k : option string) (v : T)
    (now : float) :
  Cache.get c k now = Some v -> exists e, c !! k = Some (v, e) /\ PrimFloat.ltb now e = true.
Proof.
  unfold Cache.get. destruct (c !! k) as [[v' e]|]; [|done].
  destruct (PrimFloat.ltb now e) eqn:He; [|done]. intros [= ->]. by exists e.
Qed.

Lemma get_of_lookup {T : Type} (c : Cache.ExpiringCache T) (k : option string) (v : T)
    (e now : float) :
  c !! k = Some (v, e) -> PrimFloat.ltb now e = true -> Cache.get c k now = Some v.
Proof. intros H He. unfold Cache.get. by rewrite H, He. Qed.

(** [OAuthUpstream._get_headers]: after a successful call the headers it
    returns are cached under the space-joined scopes with an expiry [e];
    they are the cached headers (cache unchanged) or a bearer header built
    from a fresh token of the endpoint, with [e] the token's [expires_at].
    Any later call for the same scopes with a clock value before [e]
    returns the same headers and leaves the cache alone, whatever the
    token endpoint would answer. *)
Theorem oauth_get_headers_cached (bearer : string -> string)
    (get_token : list string -> result OAuth.OAuthToken)
    (c c' : Cache.ExpiringCache Headers) (now : float) (scopes : list string)
    (h : Headers) :
  oauth_get_headers bearer get_token c now scopes = Ok (h, c') ->
  exists e,
    c' !! Some (join_with " " scopes) = Some (h, e) /\
    ((c' = c /\ PrimFloat.ltb now e = true) \/
     (exists t, get_token scopes = Ok t /\
        h = [("Authorization", bearer (OAuth.access_token t))] /\
        e = OAuth.expires_at t /\ c' = Cache.put c (Some (join_with " " scopes)) h e)) /\
    (forall get_token' now', PrimFloat.ltb now' e = true ->
       oauth_get_headers bearer get_token' c' now' scopes = Ok (h, c')).
Proof.
  unfold oauth_get_headers.
  destruct (Cache.get c (Some (join_with " " scopes)) now) as [h0|] eqn:Hg.
  - intros [= <- <-]. destruct (get_some _ _ _ _ Hg) as (e & Hl & He).
    exists e. split; [exact Hl|]. split; [by left|].
    intros gt' now' Hn. by rewrite (get_of_lookup _ _ _ _ _ Hl Hn).
  - unfold mbind, result_bind. destruct (get_token scopes) as [t|err] eqn:Ht; [|done].
    intros [= <- <-]. exists (OAuth.expires_at t).
    split; [apply lookup_put_eq|]. split; [right; by exists t|].
    intros gt' now' Hn. by rewrite get_put_eq, Hn.
Qed.

Lemma oauth_get_headers_cached_witness :
  let scopes := ["repository:alice/img:pull"] in
  let get_token := fun _ : list string =>
    (Ok (OAuth.mkOAuthToken "tok" 100%float) : result OAuth.OAuthToken) in
  let h := [("Authorization", "Bearer tok")] in
  let c' := Cache.put (∅ : Cache.ExpiringCache Headers) (Some "repository:alice/img:pull") h 100%float in
  oauth_get_headers (fun t => "Bearer " +:+ t) get_token ∅ 0%float scopes = Ok (h, c') /\
  oauth_get_headers (fun t => "Bearer " +:+ t) (fun _ => Err ValueError) c' 50%float scopes = Ok (h, c').
Proof.
  intros scopes get_token h c'.
  assert (H : oauth_get_headers (fun t => "Bearer " +:+ t) get_token ∅ 0%float scopes = Ok (h, c'))
    by (vm_compute; reflexivity).
  split; [exact H|].
  destruct (oauth_get_headers_cached _ _ _ _ _ _ _ H) as (e & He & _ & Hlater).
  vm_compute in He. injection He as <-.
  apply Hlater. vm_compute. reflexivity.
Defined.

(** [AWSECRAuthToken.create_from_payload]: it fails only with
    [ValueError], and it succeeds exactly when the first
    [authorizationData] entry has a token and an expiry [exp]; the token is
    that token and its [expires_at] is [now + (exp - now) * 0.75] in float
    arithmetic, which is not at or before [now]. *)
Theorem ecr_create_from_payload_spec (ad : option (list AuthorizationData)) (now : float) :
  (forall err, create_from_payload ad now = Err err -> err = ValueError) /\
  (forall tok, create_from_payload ad now = Ok tok <->
     exists d rest exp, ad = Some (d :: rest) /\
       authorizationToken d = Some (token tok) /\ expiresAt d = Some exp /\
       expires_at tok = (now + (exp - now) * 0.75)%float /\
       PrimFloat.leb (expires_at tok) now = false).
Proof.
  unfold create_from_payload. split.
  - intros err. destruct ad as [[|d rest]|]; try (intros [= <-]; done).
    destruct (authorizationToken d), (expiresAt d); try (intros [= <-]; done).
    destruct (PrimFloat.leb _ now); [intros [= <-]; done|discriminate].
  - intros [tk ex]. split.
    + destruct ad as [[|d rest]|]; try discriminate.
      destruct (authorizationToken d) as [t|] eqn:Ht, (expiresAt d) as [x|] eqn:Hx;
        try discriminate.
      destruct (PrimFloat.leb _ now) eqn:Hl; [discriminate|].
      intros [= <- <-]. by exists d, rest, x.
    + intros (d & rest & x & -> & Ht & Hx & He & Hl). cbn [token expires_at] in *.
      rewrite Ht, Hx. subst ex. by rewrite Hl.
Qed.

(** [AWSECRUpstream._get_headers]: after a successful call the headers it
    returns are cached under ["*"] with an expiry [e]; they are the cached
    headers (cache unchanged) or ["Basic " + token] for a token that
    [create_from_payload] built from the ECR answer, with [e] its
    [expires_at]. Any later call with a clock value before [e] returns the
    same headers without asking ECR. *)
Theorem ecr_get_headers_cached
    (get_authorization_token : result (option (list AuthorizationData)))
    (c c' : Cache.ExpiringCache Headers) (now now_token : float) (h : Headers) :
  ecr_get_headers get_authorization_token c now now_token = Ok (h, c') ->
  exists e,
    c' !! Some "*" = Some (h, e) /\
    ((c' = c /\ PrimFloat.ltb now e = true) \/
     (exists payload tok, get_authorization_token = Ok payload /\
        create_from_payload payload now_token = Ok tok /\
        h = [("Authorization", "Basic " +:+ token tok)] /\
        e = expires_at tok /\ c' = Cache.put c (Some "*") h e)) /\
    (forall get_authorization_token' now' now_token', PrimFloat.ltb now' e = true ->
       ecr_get_headers get_authorization_token' c' now' now_token' = Ok (h, c')).
Proof.
  unfold ecr_get_headers.
  destruct (Cache.get c (Some "*") now) as [h0|] eqn:Hg.
  - intros [= <- <-]. destruct (get_some _ _ _ _ Hg) as (e & Hl & He).
    exists e. split; [exact Hl|]. split; [by left|].
    intros gat' now' nt' Hn. by rewrite (get_of_lookup _ _ _ _ _ Hl Hn).
  - unfold mbind, result_bind.
    destruct get_authorization_token as [payload|err] eqn:Hp; [|done].
    destruct (create_from_payload payload now_token) as [tok|err] eqn:Ht; [|done].
    intros [= <- <-]. exists (expires_at tok).
    split; [apply lookup_put_eq|]. split; [right; by exists payload, tok|].
    intros gat' now' nt' Hn. by rewrite get_put_eq, Hn.
Qed.

Lemma ecr_get_headers_cached_witness :
  let gat : result (option (list AuthorizationData)) :=
    Ok (Some [mkAuthorizationData (Some "dG9r") (Some 400%float)]) in
  let h := [("Authorization", "Basic dG9r")] in
  let c' := Cache.put (∅ : Cache.ExpiringCache Headers) (Some "*") h 300%float in
  ecr_get_headers gat ∅ 0%float 0%float = Ok (h, c') /\
  ecr_get_headers (Err ValueError) c' 200%float 200%float = Ok (h, c').
Proof.
  intros gat h c'.
  assert (H : ecr_get_headers gat ∅ 0%float 0%float = Ok (h, c')) by (vm_compute; reflexivity).
  split; [exact H|].
  destruct (ecr_get_headers_cached _ _ _ _ _ _ H) as (e & He & _ & Hlater).
  vm_compute in He. injection He as <-.
  apply Hlater. vm_compute. reflexivity.
Defined.

End AuthHeadersFacts.

(** ** [_handle_aws_ecr_tags_list] *)

Module ECRTagsFacts.
Import Handler ECR ECRTags.


Lemma split_on_noslash (c : ascii) (s : string) :
  has_char c s = false -> split_on c s = [s].
Proof.
  induction s as [|d s IH]; cbn [has_char split_on]; [done|].
  intros H. apply orb_false_iff in H as [Hd Hs].
  rewrite Ascii.eqb_sym, Hd, IH by done. reflexivity.
Qed.

Lemma ecr_path_parts (user name : string) :
  has_char "/" user = false ->
  split_on "/" ("/v2/" +:+ user +:+ "/" +:+ name +:+ "/tags/list") =
  "" :: "v2" :: user :: (split_on "/" name ++ ["tags"; "list"])%list.
Proof.
  intros Hu. rewrite JoinFacts.split_v2.
  change ("/" +:+ name +:+ "/tags/list") with (String "/" (name +:+ String "/" "tags/list")).
  rewrite PyFacts.split_on_app, PyFacts.split_on_app, split_on_noslash by done. reflexivity.
Qed.

Lemma unpack_ecr_path (user name : string) :
  has_char "/" user = false ->
  unpack_path (split_on "/" ("/v2/" +:+ user +:+ "/" +:+ name +:+ "/tags/list")) =
  Some (user, split_on "/" name).
Proof.
  intros Hu. rewrite ecr_path_parts by done. unfold unpack_path.
  rewrite length_app. cbn [length].
  replace (Nat.leb 2 (length (split_on "/" name) + 2)) with true
    by (symmetry; apply Nat.leb_le; lia).
  replace (length (split_on "/" name) + 2 - 2) with (length (split_on "/" name)) by lia.
  by rewrite take_app_length.
Qed.



(** [_handle_aws_ecr_tags_list] for a request path
    [/v2/<user>/<name>/tags/list] with a [user] without a slash: it first
    calls [list_images] on the repository [<project>/<user>/<name>],
    filtered to tagged images and with [nextToken] set to the first [next]
    query value when there is one; the only other call it can make is one
    [delete_repository] of that same repository, which it makes exactly
    when the listing succeeded with an empty (or missing) [imageIds] and
    the URL has no [next] query. *)
Theorem ecr_tags_list_calls (project : string) (rr : RepoURL.t)
    (list_images : list (string * json) -> CallResult (list (string * json)))
    (delete_repository : string -> CallResult unit)
    (prep : json -> result unit) (user name : string) :
  url_path (RepoURL.url rr) = "/v2/" +:+ user +:+ "/" +:+ name +:+ "/tags/list" ->
  has_char "/" user = false ->
  let q := url_query (RepoURL.url rr) in
  let aws := project +:+ "/" +:+ user +:+ "/" +:+ name in
  let args := ([("repositoryName", JStr aws);
                ("filter", JObj [("tagStatus", JStr "TAGGED")])] ++
               (if has_key "next" q
                then [("nextToken", JStr (default "" (get_first "next" q)))] else []))%list in
  let calls := fst (_handle_aws_ecr_tags_list project rr list_images delete_repository prep) in
  (calls = [ListImages args] \/ calls = [ListImages args; DeleteRepository aws]) /\
  (calls = [ListImages args; DeleteRepository aws] <->
   exists cr, list_images args = CallOk cr /\
     py_len (default (JList []) (dict_get "imageIds" cr)) = Ok 0 /\ has_key "next" q = false).
Proof.
  intros Hp Hu. cbv zeta. unfold _handle_aws_ecr_tags_list.
  rewrite Hp, unpack_ecr_path by done. cbv beta iota zeta.
  rewrite (PyFacts.join_split "/" name).
  set (args := (_ ++ _)%list).
  destruct (list_images args) as [cr|code msg|e] eqn:Hli; cbv beta iota; cbn [fst].
  - destruct (py_len _) as [n|e] eqn:Hn; cbv beta iota; cbn [fst].
    + destruct (Nat.eqb n 0 && negb (has_key "next" (url_query (RepoURL.url rr)))) eqn:Hc.
      * apply andb_true_iff in Hc as [Hc1 Hc2]. apply Nat.eqb_eq in Hc1. subst n.
        apply negb_true_iff in Hc2.
        assert (Hd : fst (match delete_repository (project +:+ "/" +:+ user +:+ "/" +:+ name) with
                  | ClientError code message =>
                      if String.eqb code "RepositoryNotEmptyException"
                      then ([ListImages args; DeleteRepository (project +:+ "/" +:+ user +:+ "/" +:+ name)],
                            tags_response prep rr cr)
                      else ([ListImages args; DeleteRepository (project +:+ "/" +:+ user +:+ "/" +:+ name)],
                            Ok (on_client_error (RepoURL.repo rr) code message))
                  | OtherError e => ([ListImages args; DeleteRepository (project +:+ "/" +:+ user +:+ "/" +:+ name)], Err e)
                  | CallOk _ => ([ListImages args; DeleteRepository (project +:+ "/" +:+ user +:+ "/" +:+ name)],
                                 tags_response prep rr cr)
                  end) = [ListImages args; DeleteRepository (project +:+ "/" +:+ user +:+ "/" +:+ name)]).
        { destruct (delete_repository _) as [?|code ?|?]; [done| |done].
          by destruct (String.eqb code _). }
        rewrite Hd. split; [by right|]. split; [intros _; by exists cr|done].
      * split; [by left|]. split; [done|].
        intros (cr' & Hcr & Hn' & Hq). simplify_eq.
        rewrite Hn in Hn'. injection Hn' as ->. rewrite Hq in Hc. discriminate.
    + split; [by left|]. split; [done|].
      intros (cr' & Hcr & Hn' & Hq). simplify_eq. congruence.
  - split; [by left|]. split; [done|]. intros (cr' & Hcr & _). congruence.
  - split; [by left|]. split; [done|]. intros (cr' & Hcr & _). congruence.
Qed.

Lemma ecr_tags_list_calls_witness :
  let rr := RepoURL.mk "alice/img" (mkURL None "/v2/alice/img/tags/list" []) "" in
  let list_images := fun _ : list (string * json) =>
    (CallOk [("imageIds", JList [])] : CallResult (list (string * json))) in
  url_path (RepoURL.url rr) = "/v2/" +:+ "alice" +:+ "/" +:+ "img" +:+ "/tags/list" /\
  has_char "/" "alice" = false /\
  fst (_handle_aws_ecr_tags_list "neuro" rr list_images (fun _ => CallOk tt) (fun _ => Ok tt)) =
  [ListImages [("repositoryName", JStr "neuro/alice/img");
               ("filter", JObj [("tagStatus", JStr "TAGGED")])];
   DeleteRepository "neuro/alice/img"].
Proof.
  intros rr list_images.
  assert (H1 : url_path (RepoURL.url rr) = "/v2/" +:+ "alice" +:+ "/" +:+ "img" +:+ "/tags/list")
    by reflexivity.
  assert (H2 : has_char "/" "alice" = false) by reflexivity.
  split; [exact H1|]. split; [exact H2|].
  pose proof (ecr_tags_list_calls "neuro" rr list_images (fun _ => CallOk tt) (fun _ => Ok tt)
                "alice" "img" H1 H2) as T.
  cbv zeta in T. destruct T as [_ T]. apply T.
  exists [("imageIds", JList [])]. split; [reflexivity|]. split; reflexivity.
Defined.



End ECRTagsFacts.

(** ** The [Link] header of [handle_catalog] *)

Module CatalogLinkFacts.
Import Handler Catalog.



End CatalogLinkFacts.
